(** * lol-matches-api: the match tracking and reconciliation engine

    A shallow embedding of [app/main.py]: the normalizer [_normalize], the
    cache writer [_save_cache], the two engine operations
    [refresh_matches_list] and [update_scores], and the read-only handlers
    [healthz], [get_matches] and [get_matches_compact].

    Python values are JSON values here (the program only handles what
    [resp.json()] and [json.load] produce); a Python exception is a [Raise]
    result; the module-level globals are the fields of [world]. *)

From Stdlib Require Import ZArith String Ascii List DecimalString.
From stdpp Require Import base list strings.

(** ** Python values *)

(** What [json.loads] produces.  Numbers are the integral ones: provider ids,
    scores and game counts are integers, and floating point is outside this
    development.  A dict is its list of items in insertion order. *)
#[warnings="-register-all"]
Inductive json : Type :=
  | JNull
  | JBool (b : bool)
  | JNum (z : Z)
  | JStr (s : string)
  | JList (l : list json)
  | JDict (d : list (string * json)).

(** The exceptions the modelled code can raise. *)
Inductive exn : Type := TypeError | AttributeError | KeyError | IndexError.

Inductive result (A : Type) : Type :=
  | Ok (a : A)
  | Raise (e : exn).
Arguments Ok {A} a.
Arguments Raise {A} e.

Definition result_bind {A B} (c : result A) (k : A -> result B) : result B :=
  match c with
  | Ok a => k a
  | Raise e => Raise e
  end.

Notation "'try!' x := c 'in' k" := (result_bind c (fun x => k))
  (at level 10, x name, c at level 100, k at level 200).

Definition is_ok {A} (c : result A) : bool :=
  match c with Ok _ => true | Raise _ => false end.

(** [[f(x) for x in l]], stopping at the first exception. *)
Fixpoint result_map {A B} (f : A -> result B) (l : list A) : result (list B) :=
  match l with
  | [] => Ok []
  | x :: l' => try! y := f x in try! ys := result_map f l' in Ok (y :: ys)
  end.

(** Truth value of an object, as [if x:], [x and y], [x or y] test it. *)
Definition truthy (j : json) : bool :=
  match j with
  | JNull => false
  | JBool b => b
  | JNum z => negb (z =? 0)%Z
  | JStr s => negb (bool_decide (s = ""))
  | JList l => negb (bool_decide (l = []))
  | JDict d => negb (bool_decide (d = []))
  end.

(** [x or y]. *)
Definition py_or (x y : json) : json := if truthy x then x else y.

(** [isinstance(x, dict)]. *)
Definition is_dict (j : json) : bool :=
  match j with JDict _ => true | _ => false end.

(** [x is None]. *)
Definition is_none (j : json) : bool :=
  match j with JNull => true | _ => false end.

(** ** Dictionaries *)

(** Items in insertion order; a lookup returns the first item with the key,
    and [d[k] = v] overwrites the item in place or appends a new one. *)
Fixpoint dict_get {K V} `{EqDecision K} (k : K) (d : list (K * V)) : option V :=
  match d with
  | [] => None
  | (k', v) :: d' => if decide (k = k') then Some v else dict_get k d'
  end.

Fixpoint dict_set {K V} `{EqDecision K} (k : K) (v : V) (d : list (K * V))
  : list (K * V) :=
  match d with
  | [] => [(k, v)]
  | (k', v') :: d' =>
      if decide (k = k') then (k, v) :: d' else (k', v') :: dict_set k v d'
  end.

(** [x.get(k, default)] and [x.get(k)]: only a dict has the method. *)
Definition py_get_default (x : json) (k : string) (dflt : json) : result json :=
  match x with
  | JDict d => Ok (default dflt (dict_get k d))
  | _ => Raise AttributeError
  end.

Definition py_get (x : json) (k : string) : result json :=
  py_get_default x k JNull.

(** Keys of a Python dict are compared by hash and [==]: [None], integers
    (with [True == 1] and [False == 0]) and strings can be keys, a list or a
    dict cannot ([TypeError: unhashable type]). *)
Inductive key : Type := KNone | KNum (z : Z) | KStr (s : string).

#[global] Instance key_eq_dec : EqDecision key.
Proof. solve_decision. Defined.

Definition hash_key (j : json) : result key :=
  match j with
  | JNull => Ok KNone
  | JBool b => Ok (KNum (if b then 1 else 0))
  | JNum z => Ok (KNum z)
  | JStr s => Ok (KStr s)
  | JList _ | JDict _ => Raise TypeError
  end.

(** The characters of a string, each as a string.  (Bytes here, code points
    in Python; every use below raises on the first element or only tests for
    emptiness, so nothing depends on the difference.) *)
Fixpoint chars (s : string) : list json :=
  match s with
  | EmptyString => []
  | String c s' => JStr (String c EmptyString) :: chars s'
  end.

(** The elements [for x in v] runs over. *)
Definition py_iter (v : json) : result (list json) :=
  match v with
  | JList l => Ok l
  | JStr s => Ok (chars s)
  | JDict d => Ok (map (fun kv => JStr (fst kv)) d)
  | JNull | JBool _ | JNum _ => Raise TypeError
  end.

(** [len(v)]. *)
Definition py_len (v : json) : result nat :=
  match v with
  | JList l => Ok (length l)
  | JStr s => Ok (String.length s)
  | JDict d => Ok (length d)
  | JNull | JBool _ | JNum _ => Raise TypeError
  end.

(** [v[i]] for a natural number [i]; a dict is indexed by key, and an
    integer is never a key of a JSON object. *)
Definition py_index (v : json) (i : nat) : result json :=
  match v with
  | JList l => match l !! i with Some x => Ok x | None => Raise IndexError end
  | JStr s => match chars s !! i with Some x => Ok x | None => Raise IndexError end
  | JDict _ => Raise KeyError
  | JNull | JBool _ | JNum _ => Raise TypeError
  end.

(** [sep.join(parts)]: every part has to be a [str]. *)
Fixpoint str_join (sep : string) (parts : list json) : result string :=
  match parts with
  | [] => Ok ""
  | [JStr s] => Ok s
  | JStr s :: rest => try! r := str_join sep rest in Ok (s +:+ sep +:+ r)
  | _ :: _ => Raise TypeError
  end.

(** [s.split(sep)[0]]: the text before the first occurrence of [sep]. *)
Fixpoint split_first (sep s : string) : string :=
  if String.prefix sep s then ""
  else match s with
       | EmptyString => ""
       | String c s' => String c (split_first sep s')
       end.

(** ** What the platform supplies

    The wall clock and the [dateutil]/[pytz] conversions are not part of the
    program.  [clock n] is what the [n]-th call of
    [datetime.now(LOCAL_TZ).isoformat()] returns.  [local_iso now b] is
    [dateparser.parse(b).astimezone(LOCAL_TZ).isoformat()] in a call made
    when the clock reads [now], [None] when one of these raises;
    [local_human now b] the same for [strftime("%d/%m %H:%M")].  The reading
    is an argument because [dateparser.parse] completes a timestamp that
    lacks date parts from the current date.  [repr_str s] is [repr(s)] of a
    [str]. *)
Class Platform : Type := {
  clock : nat -> string;
  local_iso : string -> json -> option string;
  local_human : string -> json -> option string;
  repr_str : string -> string
}.

(** [str(z)] of an integer. *)
Definition str_of_Z (z : Z) : string := NilZero.string_of_int (Z.to_int z).

Section Values.
Context `{Platform}.

(** [repr(v)], as it appears inside the [str] of a list or a dict. *)
Fixpoint py_repr (v : json) : string :=
  match v with
  | JNull => "None"
  | JBool b => if b then "True" else "False"
  | JNum z => str_of_Z z
  | JStr s => repr_str s
  | JList l => "[" +:+ String.concat ", " (List.map py_repr l) +:+ "]"
  | JDict d =>
      "{" +:+ String.concat ", "
                (List.map (fun kv => match kv with
                                     | (k, x) => repr_str k +:+ ": " +:+ py_repr x
                                     end) d) +:+ "}"
  end.

(** [str(v)], what an f-string field [{v}] renders. *)
Definition py_str (v : json) : string :=
  match v with
  | JStr s => s
  | _ => py_repr v
  end.
End Values.

(** ** The normalizer *)

(** The lookup table of [status_label]; a status that is not a key of the
    table is its own label. *)
Definition status_label_of (status : json) (k : key) : json :=
  if decide (k = KStr "not_started") then JStr "À venir"
  else if decide (k = KStr "running") then JStr "En cours"
  else if decide (k = KStr "finished") then JStr "Terminé"
  else if decide (k = KStr "canceled") then JStr "Annulé"
  else if decide (k = KStr "postponed") then JStr "Reporté"
  else status.

(** Lines 170-186: the parts of the tournament name, then their join. *)
Definition tournament_parts (m : json) : result (list json) :=
  try! league := py_get m "league" in
  try! parts :=
    (if truthy league && is_dict league then
       try! league_name := py_get league "name" in
       Ok (if truthy league_name then [league_name] else [])
     else Ok []) in
  try! serie := py_get m "serie" in
  try! parts :=
    (if truthy serie && is_dict serie then
       try! full_name := py_get serie "full_name" in
       try! season := py_get serie "season" in
       let serie_name := py_or full_name season in
       Ok (if truthy serie_name then parts ++ [serie_name] else parts)
     else Ok parts) in
  try! tournament := py_get m "tournament" in
  if bool_decide (parts = []) && truthy tournament && is_dict tournament then
    try! tournament_name := py_get tournament "name" in
    Ok (if truthy tournament_name then parts ++ [tournament_name] else parts)
  else Ok parts.

Definition tournament_of (m : json) : result json :=
  try! parts := tournament_parts m in
  if bool_decide (parts = []) then Ok JNull
  else try! s := str_join " - " parts in Ok (JStr s).

(** Lines 189-195: the map from team id to score. *)
Definition add_score (scores_map : list (key * json)) (r : json)
  : result (list (key * json)) :=
  try! team_id := py_get r "team_id" in
  try! score := py_get r "score" in
  if negb (is_none team_id) && negb (is_none score) then
    try! k := hash_key team_id in Ok (dict_set k score scores_map)
  else Ok scores_map.

Fixpoint add_scores (scores_map : list (key * json)) (rs : list json)
  : result (list (key * json)) :=
  match rs with
  | [] => Ok scores_map
  | r :: rs' => try! sm := add_score scores_map r in add_scores sm rs'
  end.

Definition scores_map_of (m : json) : result (list (key * json)) :=
  try! results := py_get m "results" in
  if truthy results then
    try! rs := py_iter results in add_scores [] rs
  else Ok [].

(** Lines 199-209: one entry of [teams]. *)
Definition team_of (scores_map : list (key * json)) (opp : json) : result json :=
  try! wrapped :=
    (if is_dict opp then try! o := py_get opp "opponent" in Ok (truthy o)
     else Ok false) in
  try! opp_obj := (if wrapped then py_get opp "opponent" else Ok opp) in
  try! team_id := py_get opp_obj "id" in
  try! score :=
    (if bool_decide (scores_map = []) then Ok JNull
     else try! k := hash_key team_id in
          Ok (default JNull (dict_get k scores_map))) in
  try! name := py_get opp_obj "name" in
  try! image_url := py_get opp_obj "image_url" in
  try! logo := py_get opp_obj "logo" in
  Ok (JDict [("id", team_id); ("name", name);
             ("logo", py_or image_url logo); ("score", score)]).

Section Normalizer.
Context `{Platform}.

(** [_normalize(match)], with [now] the reading of the clock in its last
    field. *)
Definition normalize_at (now : string) (m : json) : result json :=
  try! tournament := tournament_of m in
  try! scores_map := scores_map_of m in
  try! opponents := py_get_default m "opponents" (JList []) in
  try! opps := py_iter opponents in
  try! teams := result_map (team_of scores_map) opps in
  try! begin_at := py_get m "begin_at" in
  let begin_local := if truthy begin_at then local_iso now begin_at else None in
  let begin_local_human :=
    match begin_local with
    | Some _ => local_human now begin_at
    | None => None
    end in
  try! status := py_get m "status" in
  try! status_key := hash_key status in
  try! id := py_get m "id" in
  try! number_of_games := py_get m "number_of_games" in
  try! match_type := py_get m "match_type" in
  Ok (JDict [("id", id);
             ("tournament", tournament);
             ("teams", JList teams);
             ("begin_at_utc", begin_at);
             ("begin_at_local", from_option JStr JNull begin_local);
             ("begin_at_local_human", from_option JStr JNull begin_local_human);
             ("status", status);
             ("status_label", status_label_of status status_key);
             ("best_of", py_or number_of_games match_type);
             ("last_update", JStr now)]).

End Normalizer.

(** ** The process state *)

(** The two module-level globals, the content of [MATCHES_CACHE_FILE]
    ([None] while the file does not exist) and the number of clock readings
    made so far. *)
Record world : Type := World {
  _tracked_matches : list json;
  _last_refresh : json;
  cache_file : option json;
  ticks : nat
}.

Definition set_tracked (l : list json) (w : world) : world :=
  World l (_last_refresh w) (cache_file w) (ticks w).

Definition set_last_refresh (t : json) (w : world) : world :=
  World (_tracked_matches w) t (cache_file w) (ticks w).

Definition set_cache_file (c : option json) (w : world) : world :=
  World (_tracked_matches w) (_last_refresh w) c (ticks w).

Definition tick (w : world) : world :=
  World (_tracked_matches w) (_last_refresh w) (cache_file w) (S (ticks w)).

(** A computation reads and writes the process state and ends normally or
    by an exception; the state an exception leaves behind is kept, as the
    globals of the process are. *)
Definition M (A : Type) : Type := world -> world * result A.

Definition ret {A} (a : A) : M A := fun w => (w, Ok a).

Definition bind {A B} (c : M A) (k : A -> M B) : M B :=
  fun w =>
    match c w with
    | (w', Ok a) => k a w'
    | (w', Raise e) => (w', Raise e)
    end.

Definition lift {A} (r : result A) : M A := fun w => (w, r).

Definition modify (f : world -> world) : M unit := fun w => (f w, Ok tt).

Notation "'do!' x := c 'in' k" := (bind c (fun x => k))
  (at level 10, x name, c at level 100, k at level 200).

(** [[f(x) for x in l]] for an [f] with effects. *)
Fixpoint M_map {A B} (f : A -> M B) (l : list A) : M (list B) :=
  match l with
  | [] => ret []
  | x :: l' => do! y := f x in do! ys := M_map f l' in ret (y :: ys)
  end.

(** [_save_cache()]: the file receives both globals.  (A write that fails
    is caught and logged by the program; the file system is taken to work.) *)
Definition _save_cache : M unit :=
  modify (fun w =>
    set_cache_file
      (Some (JDict [("matches", JList (_tracked_matches w));
                    ("last_refresh", _last_refresh w)])) w).

(** [current_status == "running"]. *)
Definition is_running (status : json) : bool :=
  match status with
  | JStr s => bool_decide (s = "running")
  | _ => false
  end.

(** [{m.get("id"): m for m in running_matches}]. *)
Fixpoint index_by_id (acc : list (key * json)) (ms : list json)
  : result (list (key * json)) :=
  match ms with
  | [] => Ok acc
  | m :: ms' =>
      try! id := py_get m "id" in
      try! k := hash_key id in
      index_by_id (dict_set k m acc) ms'
  end.

(** [any(m.get("status") == "running" for m in _tracked_matches)]. *)
Fixpoint any_running (ms : list json) : result bool :=
  match ms with
  | [] => Ok false
  | m :: ms' =>
      try! status := py_get m "status" in
      if is_running status then Ok true else any_running ms'
  end.

(** [[t.get("score") for t in m.get("teams", [])]], computed for the log. *)
Definition scores_of (m : json) : result (list json) :=
  try! teams := py_get_default m "teams" (JList []) in
  try! ts := py_iter teams in
  result_map (fun t => py_get t "score") ts.

(** What the log line of an overwritten slot evaluates. *)
Definition log_update (old_match new_match : json) : result unit :=
  try! old_scores := scores_of old_match in
  try! new_scores := scores_of new_match in
  try! new_status := py_get new_match "status" in
  Ok tt.

(** [_tracked_matches[i]] and [_tracked_matches[i] = v]. *)
Definition get_slot (i : nat) : M json :=
  fun w =>
    match _tracked_matches w !! i with
    | Some m => (w, Ok m)
    | None => (w, Raise IndexError)
    end.

Definition set_slot (i : nat) (v : json) : M unit :=
  fun w =>
    if decide (i < length (_tracked_matches w))
    then (set_tracked (<[i := v]> (_tracked_matches w)) w, Ok tt)
    else (w, Raise IndexError).

Section Engine.
Context `{Platform}.

(** [datetime.now(LOCAL_TZ).isoformat()]. *)
Definition now : M string :=
  fun w => (tick w, Ok (clock (ticks w))).

(** [_normalize(match)]: the clock is read once, when the record is built. *)
Definition _normalize (m : json) : M json :=
  fun w =>
    match normalize_at (clock (ticks w)) m with
    | Ok r => (tick w, Ok r)
    | Raise e => (w, Raise e)
    end.

(** Lines 281-293 and 300-308: slot [i] is overwritten by the normalized
    [fresh] record, then the log line is computed. *)
Definition overwrite (i : nat) (fresh : json) : M unit :=
  do! old_match := get_slot i in
  do! new_match := _normalize fresh in
  do! _ := set_slot i new_match in
  lift (log_update old_match new_match).

(** One iteration of the loop of [update_scores].  [by_id i match_id] is
    what the call [_fetch_match_by_id(match_id)] of iteration [i] returns. *)
Definition update_slot (running_by_id : list (key * json))
    (by_id : nat -> json -> option json) (i : nat) (m : json) : M unit :=
  do! match_id := lift (py_get m "id") in
  do! current_status := lift (py_get m "status") in
  do! k := lift (hash_key match_id) in
  match dict_get k running_by_id with
  | Some fresh_data => overwrite i fresh_data
  | None =>
      if is_running current_status then
        match by_id i match_id with
        | Some direct_match =>
            if truthy direct_match then overwrite i direct_match else ret tt
        | None => ret tt
        end
      else ret tt
  end.

(** [for i, match in enumerate(_tracked_matches)]: the iterator reads
    position [i] of the list as it is then, and stops past its end. *)
Fixpoint update_loop (running_by_id : list (key * json))
    (by_id : nat -> json -> option json) (n i : nat) : M unit :=
  match n with
  | 0 => ret tt
  | S n' =>
      fun w =>
        match _tracked_matches w !! i with
        | None => (w, Ok tt)
        | Some m =>
            (do! _ := update_slot running_by_id by_id i m in
             update_loop running_by_id by_id n' (S i)) w
        end
  end.

(** [update_scores()], for a cycle in which [_fetch_running_matches()]
    returns [running_matches].  The function declares only
    [_tracked_matches] global, so its assignment to [_last_refresh] binds a
    local variable. *)
Definition update_scores (running_matches : list json)
    (by_id : nat -> json -> option json) : M unit :=
  fun w =>
    if bool_decide (_tracked_matches w = []) then (w, Ok tt)
    else
      (do! has_running :=
         lift (if bool_decide (running_matches = [])
               then any_running (_tracked_matches w) else Ok false) in
       do! running_by_id := lift (index_by_id [] running_matches) in
       do! _ := update_loop running_by_id by_id
                  (length (_tracked_matches w)) 0 in
       do! _last_refresh_local := now in
       _save_cache) w.

(** [refresh_matches_list()], for a cycle in which
    [_fetch_upcoming_matches(limit=5)] returns [raw_matches]. *)
Definition refresh_matches_list (raw_matches : list json) : M unit :=
  if bool_decide (raw_matches = []) then ret tt
  else
    do! normalized := M_map _normalize raw_matches in
    do! _ := modify (set_tracked normalized) in
    do! t := now in
    do! _ := modify (set_last_refresh (JStr t)) in
    _save_cache.

End Engine.

(** ** The read-only handlers *)

(** [GET /healthz]. *)
Definition healthz (w : world) : json :=
  JDict [("status", JStr "ok");
         ("tracked_matches", JNum (Z.of_nat (length (_tracked_matches w))));
         ("last_refresh", _last_refresh w)].

(** [GET /lol/matches]. *)
Definition get_matches (w : world) : json :=
  if bool_decide (_tracked_matches w = []) then
    JDict [("matches", JList []);
           ("message",
            JStr "Aucun match tracké. Attendez le prochain rafraîchissement.");
           ("last_refresh", _last_refresh w)]
  else
    JDict [("matches", JList (_tracked_matches w));
           ("last_refresh", _last_refresh w);
           ("next_update", JStr "Toutes les 10 minutes")].

(** The icon table of the compact line, with its default. *)
Definition status_icon_of (k : key) : string :=
  if decide (k = KStr "not_started") then "⏰"
  else if decide (k = KStr "running") then "🔴"
  else if decide (k = KStr "finished") then "✅"
  else if decide (k = KStr "canceled") then "❌"
  else if decide (k = KStr "postponed") then "⏸️"
  else "📅".

Section Compact.
Context `{Platform}.

(** Lines 425-449: the display line of one tracked match. *)
Definition format_line (m : json) : result string :=
  try! teams := py_get_default m "teams" (JList []) in
  try! n := py_len teams in
  try! team1 := (if decide (0 < n) then py_index teams 0 else Ok (JDict [])) in
  try! team2 := (if decide (1 < n) then py_index teams 1 else Ok (JDict [])) in
  try! score1 := py_get team1 "score" in
  try! score2 := py_get team2 "score" in
  let score :=
    if negb (is_none score1) && negb (is_none score2)
    then "[" +:+ py_str score1 +:+ "-" +:+ py_str score2 +:+ "]"
    else "vs" in
  try! status := py_get m "status" in
  try! status_key := hash_key status in
  let status_icon := status_icon_of status_key in
  try! tournament := py_get m "tournament" in
  try! tournament_short :=
    (if truthy tournament then
       match tournament with
       | JStr s => Ok (split_first " - " s)
       | _ => Raise AttributeError
       end
     else Ok "") in
  try! name1 := py_get_default team1 "name" (JStr "?") in
  try! name2 := py_get_default team2 "name" (JStr "?") in
  try! human := py_get_default m "begin_at_local_human" (JStr "") in
  Ok (status_icon +:+ " " +:+ py_str name1 +:+ " " +:+ score +:+ " "
      +:+ py_str name2 +:+ " • " +:+ py_str human +:+ " • "
      +:+ tournament_short).

(** [lines[i] if len(lines) > i else ""]. *)
Definition line_at (lines : list string) (i : nat) : json :=
  JStr (default "" (lines !! i)).

(** [GET /lol/matches/compact]. *)
Definition get_matches_compact (w : world) : result json :=
  if bool_decide (_tracked_matches w = []) then
    Ok (JDict [("match1", JStr ""); ("match2", JStr ""); ("match3", JStr "");
               ("match4", JStr ""); ("match5", JStr "");
               ("last_update", _last_refresh w)])
  else
    try! lines := result_map format_line (take 5 (_tracked_matches w)) in
    Ok (JDict [("match1", line_at lines 0); ("match2", line_at lines 1);
               ("match3", line_at lines 2); ("match4", line_at lines 3);
               ("match5", line_at lines 4);
               ("last_update", _last_refresh w)]).

End Compact.

(** ** Shapes of records *)

(** The field [k] of an object, [None] when the object is no dict or has no
    such field. *)
Definition field (x : json) (k : string) : json :=
  match x with
  | JDict d => default JNull (dict_get k d)
  | _ => JNull
  end.

Definition is_str (j : json) : bool :=
  match j with JStr _ => true | _ => false end.

Definition null_or_str (j : json) : bool :=
  match j with JNull | JStr _ => true | _ => false end.

(** A value that can be a dictionary key: [None], a boolean, an integer or a
    string. *)
Definition scalar (j : json) : bool := is_ok (hash_key j).

(** A TeamSlot and a TrackedMatch of the data model, as JSON objects. *)
Definition wf_team (t : json) : bool :=
  match t with
  | JDict d => bool_decide (d.*1 = ["id"; "name"; "logo"; "score"])
  | _ => false
  end.

Definition wf_tracked (m : json) : bool :=
  match m with
  | JDict d =>
      bool_decide (d.*1 = ["id"; "tournament"; "teams"; "begin_at_utc";
                           "begin_at_local"; "begin_at_local_human"; "status";
                           "status_label"; "best_of"; "last_update"])
      && null_or_str (field m "tournament")
      && match field m "teams" with
         | JList ts => forallb wf_team ts
         | _ => false
         end
      && null_or_str (field m "begin_at_local")
      && null_or_str (field m "begin_at_local_human")
      && scalar (field m "status")
      && is_str (field m "last_update")
  | _ => false
  end.

(** The key under which a match is looked up in the running feed. *)
Definition id_key (m : json) : result key :=
  try! id := py_get m "id" in hash_key id.

(** No two entries have the same id. *)
Definition distinct_ids (l : list json) : Prop :=
  exists ks, id_key <$> l = Ok <$> ks /\ NoDup ks.

(** A tracked match without its [last_update] field. *)
Definition without_last_update (m : json) : json :=
  match m with
  | JDict d =>
      JDict (filter (fun kv => negb (bool_decide (kv.1 = "last_update"))) d)
  | _ => m
  end.

(** Raw records of the provider's shape.  A name is a non-empty string or
    is empty ([None], the empty string, or any other false value). *)
Definition text_or_empty (j : json) : bool := negb (truthy j) || is_str j.

Definition name_ok (obj name : json) : bool :=
  negb (truthy obj && is_dict obj) || text_or_empty name.

Definition result_ok (r : json) : bool :=
  is_dict r
  && (is_none (field r "team_id") || is_none (field r "score")
      || scalar (field r "team_id")).

Definition opponent_ok (opp : json) : bool :=
  is_dict opp
  && (if truthy (field opp "opponent")
      then is_dict (field opp "opponent") && scalar (field (field opp "opponent") "id")
      else scalar (field opp "id")).

Definition well_shaped (m : json) : bool :=
  match m with
  | JDict d =>
      name_ok (field m "league") (field (field m "league") "name")
      && name_ok (field m "serie")
           (py_or (field (field m "serie") "full_name")
                  (field (field m "serie") "season"))
      && name_ok (field m "tournament") (field (field m "tournament") "name")
      && (negb (truthy (field m "results"))
          || match field m "results" with
             | JList rs => forallb result_ok rs
             | _ => false
             end)
      && match dict_get "opponents" d with
         | None => true
         | Some (JList opps) => forallb opponent_ok opps
         | Some _ => false
         end
      && scalar (field m "status")
  | _ => false
  end.

(** ** The tournament string and the display line, as specified *)

(** A name that is present: a non-empty string. *)
Definition text (j : json) : option string :=
  match j with
  | JStr s => if bool_decide (s = "") then None else Some s
  | _ => None
  end.

Definition league_name (m : json) : option string :=
  text (field (field m "league") "name").

(** The serie's full name, falling back to its season. *)
Definition serie_name (m : json) : option string :=
  match text (field (field m "serie") "full_name") with
  | Some s => Some s
  | None => text (field (field m "serie") "season")
  end.

Definition tournament_name (m : json) : option string :=
  text (field (field m "tournament") "name").

(** What a name contributes to the parts that are joined. *)
Definition name_part (name : json) : list json :=
  if truthy name then [name] else [].

(** League name and serie name joined by [" - "]; the tournament's own name
    only when both are empty. *)
Definition spec_tournament (league serie tournament : option string) : json :=
  match league, serie with
  | Some l, Some s => JStr (l +:+ " - " +:+ s)
  | Some l, None => JStr l
  | None, Some s => JStr s
  | None, None => from_option JStr JNull tournament
  end.

(** ["{status_icon} {team1} {score-or-'vs'} {team2} • {local_human_time} •
    {short_tournament}"]. *)
Definition spec_line (status_icon team1 score team2 local_human_time
    short_tournament : string) : string :=
  status_icon +:+ " " +:+ team1 +:+ " " +:+ score +:+ " " +:+ team2
  +:+ " • " +:+ local_human_time +:+ " • " +:+ short_tournament.

Section Display.
Context `{Platform}.

(** The record the normalizer returns for a raw match [m], given the
    tournament string, the teams and the key of the status it computed: the
    ten fields of a TrackedMatch, only the last one depending on the
    clock. *)
Definition tracked_record (m tournament : json) (teams : list json)
    (status_key : key) (now : string) : json :=
  let begin_at := field m "begin_at" in
  let begin_local := if truthy begin_at then local_iso now begin_at else None in
  let begin_local_human :=
    match begin_local with
    | Some _ => local_human now begin_at
    | None => None
    end in
  JDict [("id", field m "id");
         ("tournament", tournament);
         ("teams", JList teams);
         ("begin_at_utc", begin_at);
         ("begin_at_local", from_option JStr JNull begin_local);
         ("begin_at_local_human", from_option JStr JNull begin_local_human);
         ("status", field m "status");
         ("status_label", status_label_of (field m "status") status_key);
         ("best_of", py_or (field m "number_of_games") (field m "match_type"));
         ("last_update", JStr now)].

(** The name of the team at position [k], ['?'] when there is none. *)
Definition team_text (m : json) (k : nat) : string :=
  match field m "teams" with
  | JList ts =>
      match ts !! k with
      | Some t => py_str (field t "name")
      | None => "?"
      end
  | _ => "?"
  end.

Definition team_score (m : json) (k : nat) : json :=
  match field m "teams" with
  | JList ts => from_option (fun t => field t "score") JNull (ts !! k)
  | _ => JNull
  end.

(** The score when both teams have one, ["vs"] otherwise. *)
Definition score_text (m : json) : string :=
  let s1 := team_score m 0 in
  let s2 := team_score m 1 in
  if is_none s1 || is_none s2 then "vs"
  else "[" +:+ py_str s1 +:+ "-" +:+ py_str s2 +:+ "]".

(** The tournament string up to its first [" - "]. *)
Definition short_tournament (m : json) : string :=
  match field m "tournament" with
  | JStr s => split_first " - " s
  | _ => ""
  end.

Definition status_icon (m : json) : string :=
  match hash_key (field m "status") with
  | Ok k => status_icon_of k
  | Raise _ => "📅"
  end.

Definition display_line (m : json) : string :=
  spec_line (status_icon m) (team_text m 0) (score_text m) (team_text m 1)
            (py_str (field m "begin_at_local_human")) (short_tournament m).

End Display.

(** ** Cycles of the engine *)

(** Where a slot's new content comes from in an update cycle: the running
    feed's record when the id is in the feed; otherwise, for a slot stored
    as running, the record of the by-id fetch when it returns one;
    otherwise nothing. *)
Definition slot_source (running_by_id : list (key * json))
    (by_id : nat -> json -> option json) (i : nat) (m : json)
  : option json :=
  match id_key m with
  | Raise _ => None
  | Ok k =>
      match dict_get k running_by_id with
      | Some fresh => Some fresh
      | None =>
          if is_running (field m "status") then
            match by_id i (field m "id") with
            | Some r => if truthy r then Some r else None
            | None => None
            end
          else None
      end
  end.

(** Every record a by-id fetch returns is the record of the requested id. *)
Definition by_id_faithful (by_id : nat -> json -> option json) : Prop :=
  forall i id r, by_id i id = Some r -> truthy r = true -> is_dict r = true ->
                 field r "id" = id.

Inductive op : Type :=
  | Refresh (raw_matches : list json)
  | UpdateScores (running_matches : list json)
                 (by_id : nat -> json -> option json).

Section Cycles.
Context `{Platform}.

(** The provider's answers of an update cycle are records the normalizer
    accepts. *)
Definition normalizable (r : json) : bool := is_ok (normalize_at "" r).

Definition provider_ok (running_matches : list json)
    (by_id : nat -> json -> option json) : Prop :=
  Forall (fun r => normalizable r = true /\ is_ok (id_key r) = true)
         running_matches
  /\ forall i id r, by_id i id = Some r -> truthy r = true ->
                    normalizable r = true.

(** A tracked match the update cycle can handle: a TrackedMatch whose id can
    be looked up. *)
Definition trackable (m : json) : bool := wf_tracked m && is_ok (id_key m).

(** A record whose timestamp converts to the same local time whenever the
    conversion is made: a complete timestamp, of which [dateparser.parse]
    takes nothing from the current date. *)
Definition time_fixed (r : json) : Prop :=
  forall now now',
    local_iso now (field r "begin_at") = local_iso now' (field r "begin_at")
    /\ local_human now (field r "begin_at")
       = local_human now' (field r "begin_at").

Definition times_fixed (running_matches : list json)
    (by_id : nat -> json -> option json) : Prop :=
  Forall time_fixed running_matches
  /\ forall i id r, by_id i id = Some r -> time_fixed r.

(** What an update cycle leaves in a slot that held [old]: the normalized
    record of the slot's source, or [old] itself when there is no source. *)
Definition slot_outcome (source : option json) (old : json)
    (slot : option json) : Prop :=
  match source with
  | Some fresh => exists now new, normalize_at now fresh = Ok new /\ slot = Some new
  | None => slot = Some old
  end.

(** A slot the loop gets past: its id can be looked up and the normalizer
    accepts its source. *)
Definition slot_passes (rmap : list (key * json))
    (by_id : nat -> json -> option json) (i : nat) (m : json) : Prop :=
  is_ok (id_key m) = true
  /\ forall fresh, slot_source rmap by_id i m = Some fresh ->
                   normalizable fresh = true.

(** The four ways an iteration can go. *)
Inductive slot_run (rmap : list (key * json))
    (by_id : nat -> json -> option json) (i : nat) (m : json) (w : world)
  : world -> result unit -> Prop :=
  | slot_no_key e :
      is_ok (id_key m) = false -> slot_run rmap by_id i m w w (Raise e)
  | slot_untouched :
      is_ok (id_key m) = true -> slot_source rmap by_id i m = None ->
      slot_run rmap by_id i m w w (Ok tt)
  | slot_rejected fresh e :
      is_ok (id_key m) = true -> slot_source rmap by_id i m = Some fresh ->
      normalize_at (clock (ticks w)) fresh = Raise e ->
      slot_run rmap by_id i m w w (Raise e)
  | slot_overwritten fresh new :
      is_ok (id_key m) = true -> slot_source rmap by_id i m = Some fresh ->
      normalize_at (clock (ticks w)) fresh = Ok new ->
      slot_run rmap by_id i m w
        (set_tracked (<[i := new]> (_tracked_matches w)) (tick w))
        (log_update m new).

(** The state an operation leaves behind, whether it ends normally or not. *)
Definition run_op (o : op) (w : world) : world :=
  match o with
  | Refresh raw_matches => (refresh_matches_list raw_matches w).1
  | UpdateScores running_matches by_id =>
      (update_scores running_matches by_id w).1
  end.

Definition run (ops : list op) (w : world) : world :=
  foldl (fun w o => run_op o w) w ops.

(** An update cycle given by the provider's answers to its two fetches. *)
Definition cycle_op (c : list json * (nat -> json -> option json)) : op :=
  UpdateScores c.1 c.2.

Definition op_ok (o : op) : Prop :=
  match o with
  | Refresh raw_matches => distinct_ids raw_matches
  | UpdateScores _ by_id => by_id_faithful by_id
  end.

End Cycles.

(** The process before [startup_event]. *)
Definition initial_world : world := World [] JNull None 0.

(** ** Sample data *)

Definition sample_platform : Platform := {|
  clock := fun n => "2024-06-01T12:0" +:+ str_of_Z (Z.of_nat n) +:+ ":00+02:00";
  local_iso := fun _ b =>
    match b with
    | JStr "2024-06-01T16:00:00Z" => Some "2024-06-01T18:00:00+02:00"
    | _ => None
    end;
  local_human := fun _ b =>
    match b with
    | JStr "2024-06-01T16:00:00Z" => Some "01/06 18:00"
    | _ => None
    end;
  repr_str := fun s => "'" +:+ s +:+ "'"
|}.

Definition raw_team (id : Z) (name : string) : json :=
  JDict [("opponent", JDict [("id", JNum id); ("name", JStr name);
                             ("image_url", JNull)]);
         ("type", JStr "Team")].

Definition raw_lfl (status : string) (results : list json) : json :=
  JDict [("id", JNum 1001);
         ("league", JDict [("id", JNum 4); ("name", JStr "LFL")]);
         ("serie", JDict [("full_name", JStr "Summer 2024"); ("season", JStr "Summer")]);
         ("tournament", JDict [("name", JStr "Regular Season")]);
         ("opponents", JList [raw_team 1 "KC"; raw_team 2 "VIT"]);
         ("results", JList results);
         ("begin_at", JStr "2024-06-01T16:00:00Z");
         ("status", JStr status);
         ("number_of_games", JNum 3)].

Definition raw_worlds : json :=
  JDict [("id", JNum 1002);
         ("tournament", JDict [("name", JStr "Worlds")]);
         ("opponents", JList [raw_team 3 "T1"]);
         ("begin_at", JStr "tomorrow-ish");
         ("status", JStr "not_started");
         ("match_type", JStr "best_of")].

(** A tracked match as a refresh at 06:00 stores it. *)
Definition sample_tracked (raw : json) : json :=
  match @normalize_at sample_platform "2024-06-01T06:00:00+02:00" raw with
  | Ok m => m
  | Raise _ => JNull
  end.

Definition final_results : list json :=
  [JDict [("team_id", JNum 1); ("score", JNum 2)];
   JDict [("team_id", JNum 2); ("score", JNum 1)]].

(** The process after the refresh of 06:00: the first match is stored as
    running, the second has not started. *)
Definition sample_world : world :=
  World [sample_tracked (raw_lfl "running" []); sample_tracked raw_worlds]
        (JStr "2024-06-01T06:00:00+02:00") None 3.

(** A by-id fetch that knows the first match, now finished. *)
Definition sample_by_id (i : nat) (id : json) : option json :=
  match id with
  | JNum z =>
      if decide (z = 1001%Z) then Some (raw_lfl "finished" final_results)
      else None
  | _ => None
  end.

(** ** The cache file at startup and shutdown *)

(** [_load_cache()]: the values of [_tracked_matches] and [_last_refresh]
    afterwards.  [cache_file] holds what [json.load] returns.  Without a
    file nothing is assigned; any exception, also the one of the [len] in
    the log line, resets both globals. *)
Definition _load_cache (w : world) : json * json :=
  match cache_file w with
  | None => (JList (_tracked_matches w), _last_refresh w)
  | Some data =>
      match (try! matches := py_get_default data "matches" (JList []) in
             try! last_refresh := py_get data "last_refresh" in
             try! n := py_len matches in
             Ok (matches, last_refresh)) with
      | Ok loaded => loaded
      | Raise _ => (JList [], JNull)
      end
  end.

(** The process state after [_load_cache()].  A file whose ["matches"] is a
    string or an object leaves in [_tracked_matches] a value that is no
    list, which [world] does not hold: there is no state then. *)
Definition load_world (w : world) : option world :=
  match _load_cache w with
  | (JList l, last_refresh) =>
      Some (World l last_refresh (cache_file w) (ticks w))
  | _ => None
  end.

(** What [_save_cache()] writes for a state. *)
Definition cache_of (w : world) : json :=
  JDict [("matches", JList (_tracked_matches w));
         ("last_refresh", _last_refresh w)].

(** A process that has just been started: the module initialises both
    globals (lines 45-46); [file] is what the disk holds. *)
Definition new_process (file : option json) (t : nat) : world :=
  World [] JNull file t.

Section Lifecycle.
Context `{Platform}.

(** [startup_event()], as far as the process state goes (the scheduler
    jobs it registers are [refresh_matches_list] and [update_scores]);
    [raw_matches] is what the fetch of the first refresh returns, if it is
    made. *)
Definition startup_event (raw_matches : list json) (w : world)
  : option (world * result unit) :=
  match load_world w with
  | Some w1 =>
      Some (if bool_decide (_tracked_matches w1 = [])
            then refresh_matches_list raw_matches w1
            else (w1, Ok tt))
  | None => None
  end.

(** [shutdown_event()], after the scheduler has stopped. *)
Definition shutdown_event : M unit := _save_cache.

End Lifecycle.

(** ** The provider client *)

(** What [resp.json()] does: it returns a value, or raises an exception
    that is a [requests.RequestException] or a plain [ValueError],
    depending on the version of the library. *)
Inductive json_call : Type :=
  | JsonValue (j : json)
  | JsonRequestException
  | JsonValueError.

(** What [requests.get] does: it raises a [RequestException] (no
    connection, timeout) or returns a response. *)
Inductive http : Type :=
  | GetRaises
  | Response (status_code : Z) (body : json_call).

Record request : Type := Request {
  url : string;
  bearer : string;
  params : list (string * json);
  timeout : Z
}.

Definition BASE_URL : string := "https://api.pandascore.co/lol".

(** How a fetch ends: with a value, with one of the exceptions of [exn], or
    with the [ValueError] of [resp.json()]. *)
Inductive fetch_outcome : Type :=
  | Returns (j : json)
  | Raises (e : exn)
  | RaisesValueError.

(** The body of the two list fetches after [requests.get]: only a
    [RequestException] is caught, and the log line takes [len(matches)]. *)
Definition list_reply (reply : http) : fetch_outcome :=
  match reply with
  | GetRaises => Returns (JList [])
  | Response status_code body =>
      if decide (status_code = 200%Z) then
        match body with
        | JsonValue matches =>
            match py_len matches with
            | Ok _ => Returns matches
            | Raise e => Raises e
            end
        | JsonRequestException => Returns (JList [])
        | JsonValueError => RaisesValueError
        end
      else Returns (JList [])
  end.

(** [_fetch_upcoming_matches(limit)], for the value [api_key] of
    [PANDASCORE_API_KEY] ([None] when the variable is not set) and a
    network [net]. *)
Definition _fetch_upcoming_matches (api_key : option string)
    (net : request -> http) (limit : Z) : fetch_outcome :=
  match api_key with
  | None | Some "" => Returns (JList [])
  | Some k =>
      list_reply (net (Request (BASE_URL +:+ "/matches/upcoming") k
                               [("per_page", JNum limit)] 10))
  end.

(** [_fetch_running_matches()]. *)
Definition _fetch_running_matches (api_key : option string)
    (net : request -> http) : fetch_outcome :=
  match api_key with
  | None | Some "" => Returns (JList [])
  | Some k =>
      list_reply (net (Request (BASE_URL +:+ "/matches/running") k [] 10))
  end.

(** The first character of a string: its first byte with the continuation
    bytes that follow it. *)
Definition is_continuation (c : ascii) : bool :=
  (128 <=? nat_of_ascii c) && (nat_of_ascii c <? 192).

Fixpoint continuation (s : string) : string :=
  match s with
  | EmptyString => EmptyString
  | String c s' =>
      if is_continuation c then String c (continuation s') else EmptyString
  end.

(** [v[0]]. *)
Definition py_first (v : json) : result json :=
  match v with
  | JList [] => Raise IndexError
  | JList (x :: _) => Ok x
  | JStr EmptyString => Raise IndexError
  | JStr (String c s) => Ok (JStr (String c (continuation s)))
  | JDict _ => Raise KeyError
  | JNull | JBool _ | JNum _ => Raise TypeError
  end.

(** [_fetch_match_by_id(match_id)]: every exception is caught, [None] is
    returned for it. *)
Definition _fetch_match_by_id (api_key : option string)
    (net : request -> http) (match_id : json) : json :=
  match api_key with
  | None | Some "" => JNull
  | Some k =>
      match net (Request (BASE_URL +:+ "/matches") k
                         [("filter[id]", match_id)] 5) with
      | GetRaises => JNull
      | Response status_code body =>
          if decide (status_code = 200%Z) then
            match body with
            | JsonValue matches =>
                if truthy matches then
                  match py_len matches with
                  | Ok n =>
                      if decide (0 < n) then
                        match py_first matches with
                        | Ok first => first
                        | Raise _ => JNull
                        end
                      else JNull
                  | Raise _ => JNull
                  end
                else JNull
            | JsonRequestException | JsonValueError => JNull
            end
          else JNull
      end
  end.

(** The by-id fetches of an update cycle over a network. *)
Definition by_id_over (api_key : option string) (net : request -> http)
  : nat -> json -> option json :=
  fun _ match_id => Some (_fetch_match_by_id api_key net match_id).

(** The provider cannot be reached: there is no credential, or every
    request fails or is answered with a status other than 200. *)
Definition unreachable (api_key : option string) (net : request -> http)
  : Prop :=
  api_key = None \/ api_key = Some ""
  \/ forall req, net req = GetRaises
                 \/ exists status_code body,
                      net req = Response status_code body
                      /\ status_code <> 200%Z.

(** ** Parts of a raw record *)

(** [match.get("opponents", [])]. *)
Definition opponents_of (m : json) : json :=
  match m with
  | JDict d => default (JList []) (dict_get "opponents" d)
  | _ => JList []
  end.

(** The team object of an opponent entry: its ["opponent"] sub-object when
    it has one, the entry itself otherwise. *)
Definition opponent_object (opp : json) : json :=
  if is_dict opp && truthy (field opp "opponent") then field opp "opponent"
  else opp.

(** A result entry that gives team [k] a score: both fields are there and
    the team id is [k]. *)
Definition scores_team (k : key) (r : json) : Prop :=
  hash_key (field r "team_id") = Ok k
  /\ is_none (field r "team_id") = false
  /\ is_none (field r "score") = false.

(** [sep in s]: [sep] occurs somewhere in [s]. *)
Fixpoint occurs (sep s : string) : bool :=
  String.prefix sep s
  || match s with
     | EmptyString => false
     | String _ s' => occurs sep s'
     end.

(** ** More sample data *)

(** A match stored as running that the running feed does not list, and a
    by-id fetch that answers with a record the normalizer refuses. *)
Definition raw_1003 : json :=
  JDict [("id", JNum 1003); ("status", JStr "running")].

Definition broken_by_id (i : nat) (id : json) : option json :=
  Some (JDict [("id", id); ("opponents", JNull)]).

Definition sample_world_1003 : world :=
  World [sample_tracked (raw_lfl "running" []); sample_tracked raw_1003]
        (JStr "2024-06-01T06:00:00+02:00") None 3.

(** A platform whose clock is a day further at each reading and whose
    conversion completes a time of day with the date of the call, as
    [dateparser.parse] does. *)
Definition daily_platform : Platform := {|
  clock := fun n => "2024-06-0" +:+ str_of_Z (Z.of_nat n) +:+ "T12:00:00+02:00";
  local_iso := fun now b =>
    match b with
    | JStr "16:00" => Some (String.substring 0 10 now +:+ "T16:00:00+02:00")
    | _ => None
    end;
  local_human := fun now b =>
    match b with
    | JStr "16:00" => Some (String.substring 8 2 now +:+ "/06 16:00")
    | _ => None
    end;
  repr_str := fun s => "'" +:+ s +:+ "'"
|}.

(** A feed record whose timestamp is a time of day. *)
Definition raw_time_only : json :=
  JDict [("id", JNum 1001); ("begin_at", JStr "16:00");
         ("status", JStr "running")].

(** Three tracked matches: 1001 and 1003 stored as running, 1002 not
    started. *)
Definition sample_world_three : world :=
  World [sample_tracked (raw_lfl "running" []); sample_tracked raw_1003;
         sample_tracked raw_worlds]
        (JStr "2024-06-01T06:00:00+02:00") None 3.

(** A by-id fetch that knows match 1003, now finished. *)
Definition by_id_1003 (i : nat) (id : json) : option json :=
  match id with
  | JNum z =>
      if decide (z = 1003%Z)
      then Some (JDict [("id", JNum 1003); ("status", JStr "finished")])
      else None
  | _ => None
  end.

(** A running feed whose first record the normalizer refuses. *)
Definition refused_feed : list json :=
  [JDict [("id", JNum 1001); ("opponents", JNull)];
   JDict [("id", JNum 1002); ("status", JStr "running")]].

(** A by-id fetch that answers with the record of another match. *)
Definition unfaithful_by_id (i : nat) (id : json) : option json :=
  match id with
  | JNum z =>
      Some (JDict [("id", JNum (z + 1001)); ("status", JStr "running")])
  | _ => None
  end.

(** * Properties *)

(** ** Exceptions and dictionaries *)

Lemma result_bind_ok {A B} (c : result A) (k : A -> result B) (b : B) :
  result_bind c k = Ok b -> exists a, c = Ok a /\ k a = Ok b.
Proof. destruct c as [a|e]; simpl; [eauto | discriminate]. Qed.

(** Splits a hypothesis [try! x := c in k = Ok b] into its two facts. *)
Ltac try_inv H :=
  let a := fresh "v" in
  let H1 := fresh "E" in
  apply result_bind_ok in H; destruct H as (a & H1 & H).

Lemma py_get_field (m : json) (k : string) (v : json) :
  py_get m k = Ok v -> v = field m k /\ is_dict m = true.
Proof.
  destruct m; simpl; try discriminate. intros [= <-]. done.
Qed.

Lemma py_get_dict (d : list (string * json)) (k : string) :
  py_get (JDict d) k = Ok (field (JDict d) k).
Proof. reflexivity. Qed.

Lemma is_dict_get (m : json) (k : string) :
  is_dict m = true -> py_get m k = Ok (field m k).
Proof. destruct m; try discriminate. reflexivity. Qed.

Lemma id_key_ok (m : json) (k : key) :
  id_key m = Ok k -> is_dict m = true /\ hash_key (field m "id") = Ok k.
Proof.
  unfold id_key. intros E. try_inv E.
  apply py_get_field in E0 as [-> ?]. done.
Qed.

Lemma dict_get_set {K V} `{EqDecision K} (k k' : K) (v : V) (d : list (K * V)) :
  dict_get k (dict_set k' v d) = if decide (k = k') then Some v else dict_get k d.
Proof.
  induction d as [|[k0 v0] d IH]; simpl.
  - destruct (decide (k = k')); done.
  - destruct (decide (k' = k0)) as [->|Hne]; simpl.
    + destruct (decide (k = k0)); done.
    + destruct (decide (k = k0)) as [->|]; [|done].
      destruct (decide (k0 = k')); congruence.
Qed.

Lemma dict_get_here {K V} `{EqDecision K} (k : K) (v : V) (d : list (K * V)) :
  dict_get k ((k, v) :: d) = Some v.
Proof. simpl. by destruct (decide (k = k)). Qed.

Lemma dict_get_skip {K V} `{EqDecision K} (k k' : K) (v : V) (d : list (K * V)) :
  k <> k' -> dict_get k ((k', v) :: d) = dict_get k d.
Proof. intros Hne. simpl. by destruct (decide (k = k')). Qed.

(** Evaluates the lookups of literal keys in literal dictionaries. *)
Ltac dict_lookup :=
  repeat first
    [ rewrite dict_get_here
    | rewrite dict_get_skip by discriminate ].

Ltac dict_lookup_in H :=
  repeat first
    [ rewrite dict_get_here in H
    | rewrite dict_get_skip in H by discriminate ].

(** ** Refresh *)

(** C3: when the fetch of upcoming matches returns no match, Refresh ends
    normally and leaves the tracked set, the [last_refresh] timestamp and the
    persisted file (the whole process state) exactly as they were. *)
Theorem refresh_empty_fetch_is_noop `{Platform} (w : world) :
  refresh_matches_list [] w = (w, Ok tt)
  /\ _tracked_matches (run_op (Refresh []) w) = _tracked_matches w
  /\ _last_refresh (run_op (Refresh []) w) = _last_refresh w
  /\ cache_file (run_op (Refresh []) w) = cache_file w.
Proof. repeat split. Qed.

(** ** One iteration of the update loop *)

Section Update.
Context `{Platform}.

Lemma overwrite_eq (i : nat) (fresh old : json) (w : world) :
  _tracked_matches w !! i = Some old ->
  overwrite i fresh w =
    match normalize_at (clock (ticks w)) fresh with
    | Ok new =>
        (set_tracked (<[i := new]> (_tracked_matches w)) (tick w),
         log_update old new)
    | Raise e => (w, Raise e)
    end.
Proof.
  intros Hi. unfold overwrite, bind, get_slot, _normalize. rewrite Hi.
  destruct (normalize_at _ fresh) as [new|e]; [|done].
  unfold set_slot. simpl.
  destruct (decide (i < length (_tracked_matches w))) as [|Hge]; [done|].
  apply lookup_lt_Some in Hi. lia.
Qed.

Lemma id_key_dict (d : list (string * json)) :
  id_key (JDict d) = hash_key (field (JDict d) "id").
Proof. reflexivity. Qed.

Lemma update_slot_run rmap by_id i m w :
  _tracked_matches w !! i = Some m ->
  slot_run rmap by_id i m w (update_slot rmap by_id i m w).1
                            (update_slot rmap by_id i m w).2.
Proof.
  intros Hi. unfold update_slot, bind, lift.
  destruct m as [| | | | |d];
    try (cbn; by apply slot_no_key).
  rewrite !py_get_dict.
  pose proof (id_key_dict d) as Hid.
  destruct (hash_key (field (JDict d) "id")) as [k|e] eqn:Ek.
  2:{ cbn [fst snd]. apply slot_no_key. by rewrite Hid. }
  assert (Hok : is_ok (id_key (JDict d)) = true) by (by rewrite Hid).
  assert (Hdone : forall fresh,
    slot_source rmap by_id i (JDict d) = Some fresh ->
    slot_run rmap by_id i (JDict d) w (overwrite i fresh w).1
                                      (overwrite i fresh w).2).
  { intros fresh Hs. rewrite (overwrite_eq i fresh (JDict d) w Hi).
    destruct (normalize_at _ fresh) as [new|e] eqn:En; cbn [fst snd].
    - by eapply slot_overwritten.
    - by eapply slot_rejected. }
  assert (Hnone : slot_source rmap by_id i (JDict d) = None ->
    slot_run rmap by_id i (JDict d) w (ret tt w).1 (ret tt w).2)
    by (intros; by apply slot_untouched).
  revert Hdone Hnone. unfold slot_source. rewrite Hid. intros Hdone Hnone.
  destruct (dict_get k rmap) as [fresh|]; [by apply Hdone|].
  destruct (is_running _); [|by apply Hnone].
  destruct (by_id i _) as [r|]; [|by apply Hnone].
  destruct (truthy r); [by apply Hdone | by apply Hnone].
Qed.

End Update.

(** ** The record the normalizer builds *)

Lemma tournament_of_null_or_str (m t : json) :
  tournament_of m = Ok t -> null_or_str t = true.
Proof.
  unfold tournament_of. intros E. try_inv E.
  destruct (bool_decide _); [by injection E as <-|].
  try_inv E. by injection E as <-.
Qed.

Lemma team_of_wf (scores_map : list (key * json)) (opp t : json) :
  team_of scores_map opp = Ok t -> wf_team t = true.
Proof.
  unfold team_of. intros E. do 7 try_inv E. by injection E as <-.
Qed.

Lemma result_map_Forall {A B} (f : A -> result B) (P : B -> Prop) l ys :
  (forall x y, f x = Ok y -> P y) ->
  result_map f l = Ok ys -> Forall P ys.
Proof.
  intros Hf. revert ys. induction l as [|x l IH]; simpl; intros ys E.
  - injection E as <-. constructor.
  - do 2 try_inv E. injection E as <-. constructor; eauto.
Qed.

Section NormalizerFacts.
Context `{Platform}.

Lemma normalize_at_ok (now : string) (m new : json) :
  normalize_at now m = Ok new ->
  exists tournament scores_map opps teams status_key,
    is_dict m = true
    /\ tournament_of m = Ok tournament
    /\ scores_map_of m = Ok scores_map
    /\ result_map (team_of scores_map) opps = Ok teams
    /\ hash_key (field m "status") = Ok status_key
    /\ new = tracked_record m tournament teams status_key now
    /\ forall now', normalize_at now' m
                    = Ok (tracked_record m tournament teams status_key now').
Proof.
  unfold normalize_at. intros E.
  destruct m as [| | | | |d];
    try (unfold tournament_of, tournament_parts in E; simpl in E; discriminate).
  try_inv E. rename v into tournament, E0 into Et.
  try_inv E. rename v into scores_map, E0 into Es.
  try_inv E. rename v into opponents, E0 into Eo.
  try_inv E. rename v into opps, E0 into Ei.
  try_inv E. rename v into teams, E0 into Em.
  rewrite !py_get_dict in E. cbn [result_bind] in E.
  try_inv E. rename v into status_key, E0 into Ek.
  injection E as <-.
  exists tournament, scores_map, opps, teams, status_key.
  repeat split; try done.
  intros now'. rewrite Et, Es. cbn [result_bind]. rewrite Eo.
  cbn [result_bind]. rewrite Ei. cbn [result_bind]. rewrite Em. cbn [result_bind].
  rewrite !py_get_dict. cbn [result_bind]. rewrite Ek. done.
Qed.

Lemma normalize_at_wf (now : string) (m new : json) :
  normalize_at now m = Ok new -> wf_tracked new = true.
Proof.
  intros E. apply normalize_at_ok in E
    as (t & sm & opps & teams & k & _ & Et & _ & Em & Ek & -> & _).
  apply tournament_of_null_or_str in Et.
  apply (result_map_Forall _ (fun t => wf_team t = true)) in Em;
    [|apply team_of_wf].
  unfold wf_tracked, tracked_record.
  repeat (apply andb_true_intro; split); try done.
  - cbn. apply forallb_forall. intros x Hx.
    by eapply Forall_forall in Em; [|apply list_elem_of_In, Hx].
  - cbn. destruct (truthy _); [|done]. by destruct (local_iso _ _).
  - cbn. destruct (truthy _); [|done]. destruct (local_iso _ _); [|done].
    by destruct (local_human _ _).
  - unfold scalar. change (field _ "status") with (field m "status").
    by rewrite Ek.
Qed.

Lemma normalize_at_id (now : string) (m new : json) :
  normalize_at now m = Ok new ->
  is_dict m = true /\ field new "id" = field m "id"
  /\ field new "status" = field m "status" /\ id_key new = id_key m.
Proof.
  intros E. apply normalize_at_ok in E
    as (t & sm & opps & teams & k & Hd & _ & _ & _ & _ & -> & _).
  repeat split; try done.
  destruct m; try discriminate. reflexivity.
Qed.

Lemma normalize_at_clock (now now' : string) (m new : json) :
  normalize_at now m = Ok new ->
  exists new', normalize_at now' m = Ok new'
               /\ (time_fixed m ->
                   without_last_update new' = without_last_update new).
Proof.
  intros E. apply normalize_at_ok in E
    as (t & sm & opps & teams & k & _ & _ & _ & _ & _ & -> & Hall).
  eexists. split; [apply Hall|]. intros Hf.
  destruct (Hf now now') as [Hi Hh].
  unfold tracked_record. rewrite Hi, Hh. reflexivity.
Qed.

Lemma normalizable_ok (now : string) (m : json) :
  normalizable m = true -> exists new, normalize_at now m = Ok new.
Proof.
  unfold normalizable. destruct (normalize_at "" m) as [new|] eqn:E; [|done].
  intros _. destruct (normalize_at_clock "" now m new E) as (new' & ? & _).
  eauto.
Qed.

Lemma normalizable_intro (now : string) (m new : json) :
  normalize_at now m = Ok new -> normalizable m = true.
Proof.
  intros E. destruct (normalize_at_clock now "" m new E) as (x & Ex & _).
  unfold normalizable. by rewrite Ex.
Qed.

End NormalizerFacts.

(** ** The running feed as a map *)

Lemma index_by_id_sound (ms : list json) :
  forall acc rmap,
    index_by_id acc ms = Ok rmap ->
    forall k v, dict_get k rmap = Some v ->
                (v ∈ ms /\ id_key v = Ok k) \/ dict_get k acc = Some v.
Proof.
  induction ms as [|m ms IH]; simpl; intros acc rmap E k v Hv.
  - injection E as <-. by right.
  - do 2 try_inv E. rename v0 into id, v1 into km.
    destruct (IH _ _ E k v Hv) as [[Hin Hk]|Hacc].
    + left. split; [by apply list_elem_of_further | done].
    + rewrite dict_get_set in Hacc. destruct (decide (k = km)) as [->|].
      * injection Hacc as <-. left. split; [apply list_elem_of_here|].
        unfold id_key. by rewrite E0.
      * by right.
Qed.

Lemma index_by_id_total (ms : list json) :
  Forall (fun m => is_ok (id_key m) = true) ms ->
  forall acc, exists rmap, index_by_id acc ms = Ok rmap.
Proof.
  induction 1 as [|m ms Hm _ IH]; simpl; intros acc; [eauto|].
  unfold id_key in Hm. destruct (py_get m "id") as [id|]; [|done].
  cbn in Hm |- *. destruct (hash_key id) as [k|]; [|done]. cbn. apply IH.
Qed.

Lemma index_by_id_app (ms1 ms2 : list json) :
  forall acc,
    index_by_id acc (ms1 ++ ms2)
    = try! acc1 := index_by_id acc ms1 in index_by_id acc1 ms2.
Proof.
  induction ms1 as [|m ms1 IH]; intros acc; [done|]. simpl.
  destruct (py_get m "id") as [id|]; [|done]. cbn [result_bind].
  destruct (hash_key id) as [k|]; [|done]. cbn [result_bind]. apply IH.
Qed.

Lemma index_by_id_other (k : key) (ms : list json) :
  Forall (fun m => id_key m <> Ok k) ms ->
  forall acc rmap, index_by_id acc ms = Ok rmap ->
                   dict_get k rmap = dict_get k acc.
Proof.
  induction 1 as [|m ms Hm _ IH]; simpl; intros acc rmap E.
  - by injection E as <-.
  - do 2 try_inv E. rewrite (IH _ _ E), dict_get_set.
    destruct (decide (k = v0)) as [->|]; [|done].
    exfalso. apply Hm. unfold id_key. by rewrite E0.
Qed.

(** ** The update loop *)

Section Loop.
Context `{Platform}.
Variable rmap : list (key * json).
Variable by_id : nat -> json -> option json.

Lemma update_loop_S (n i : nat) (w : world) :
  update_loop rmap by_id (S n) i w =
    match _tracked_matches w !! i with
    | None => (w, Ok tt)
    | Some m =>
        match update_slot rmap by_id i m w with
        | (w1, Ok _) => update_loop rmap by_id n (S i) w1
        | (w1, Raise e) => (w1, Raise e)
        end
    end.
Proof. reflexivity. Qed.

(** A relation between states that every iteration respects holds between
    the states before and after the loop, however the loop ends. *)
Lemma update_loop_inv (R : world -> world -> Prop) :
  (forall w, R w w) ->
  (forall a b c, R a b -> R b c -> R a c) ->
  (forall i m w, _tracked_matches w !! i = Some m ->
                 R w (update_slot rmap by_id i m w).1) ->
  forall n i w, R w (update_loop rmap by_id n i w).1.
Proof.
  intros Hrefl Htrans Hstep. induction n as [|n IH]; intros i w; [apply Hrefl|].
  rewrite update_loop_S.
  destruct (_tracked_matches w !! i) as [m|] eqn:Hi; [|apply Hrefl].
  specialize (Hstep i m w Hi).
  destruct (update_slot rmap by_id i m w) as [w1 [[]|e]]; simpl in *; [|done].
  eapply Htrans; [apply Hstep | apply IH].
Qed.

(** The loop touches neither the timestamp nor the file, and keeps the
    length of the list. *)
Lemma update_loop_frame (n i : nat) (w : world) :
  let w' := (update_loop rmap by_id n i w).1 in
  _last_refresh w' = _last_refresh w /\ cache_file w' = cache_file w
  /\ length (_tracked_matches w') = length (_tracked_matches w).
Proof.
  apply (update_loop_inv (fun w w' =>
    _last_refresh w' = _last_refresh w /\ cache_file w' = cache_file w
    /\ length (_tracked_matches w') = length (_tracked_matches w))).
  - done.
  - intros a b c (-> & -> & ->) (-> & -> & ->). done.
  - intros j m w0 Hj. destruct (update_slot_run rmap by_id j m w0 Hj); try done.
    simpl. by rewrite length_insert.
Qed.

(** With a sound feed map and faithful by-id answers, the loop keeps the id
    of every slot, however it ends. *)
Lemma update_loop_ids (n i : nat) (w : world) :
  (forall k v, dict_get k rmap = Some v -> id_key v = Ok k) ->
  by_id_faithful by_id ->
  id_key <$> _tracked_matches (update_loop rmap by_id n i w).1
  = id_key <$> _tracked_matches w.
Proof.
  intros Hsound Hfaith.
  apply (update_loop_inv (fun w w' =>
    id_key <$> _tracked_matches w' = id_key <$> _tracked_matches w)).
  - done.
  - intros a b c Hab Hbc. by rewrite Hbc.
  - intros j m w0 Hj.
    destruct (update_slot_run rmap by_id j m w0 Hj)
      as [| | |fresh new Hok Hsrc Hnew]; try done.
    simpl. rewrite list_fmap_insert.
    apply list_insert_id. rewrite list_lookup_fmap, Hj. simpl. f_equal.
    apply normalize_at_id in Hnew as (Hd & Hid & _ & ->).
    unfold slot_source in Hsrc.
    destruct (id_key m) as [k|] eqn:Ek; [|done].
    destruct (dict_get k rmap) as [v|] eqn:Eg.
    { injection Hsrc as ->. symmetry. by apply Hsound. }
    destruct (is_running _); [|done].
    destruct (by_id j _) as [r|] eqn:Er; [|done].
    destruct (truthy r) eqn:Et; [|done]. injection Hsrc as ->.
    specialize (Hfaith _ _ _ Er Et Hd).
    apply id_key_ok in Ek as [Hm Ek].
    destruct fresh; try discriminate. by rewrite id_key_dict, Hfaith.
Qed.

(** When the loop ends normally, every slot it visited holds the outcome of
    its source and every other slot is as before. *)
Lemma update_loop_slots (n : nat) :
  forall i w w',
    update_loop rmap by_id n i w = (w', Ok tt) ->
    forall j old, _tracked_matches w !! j = Some old ->
      if decide (i <= j < i + n)
      then slot_outcome (slot_source rmap by_id j old) old
                        (_tracked_matches w' !! j)
      else _tracked_matches w' !! j = Some old.
Proof.
  induction n as [|n IH]; intros i w w' E j old Hj.
  - injection E as <-. destruct (decide _); [lia | done].
  - rewrite update_loop_S in E.
    destruct (_tracked_matches w !! i) as [m|] eqn:Hi.
    2:{ injection E as <-. apply lookup_ge_None in Hi.
        pose proof (lookup_lt_Some _ _ _ Hj). destruct (decide _); [lia | done]. }
    pose proof (update_slot_run rmap by_id i m w Hi) as Hrun.
    destruct (update_slot rmap by_id i m w) as [w1 [[]|e]]; [|done].
    simpl in Hrun.
    assert (Hother : j <> i ->
      _tracked_matches w1 !! j = Some old).
    { intros Hne. inversion Hrun; subst; try done.
      simpl. by rewrite list_lookup_insert_ne. }
    specialize (IH (S i) w1 w' E j).
    destruct (decide (j = i)) as [->|Hne].
    + assert (Hm : m = old) by congruence. subst m.
      destruct (decide (i <= i < i + S n)) as [_|]; [|lia].
      inversion Hrun as [| Hok Hsrc | |fresh new Hok Hsrc Hnew]; subst.
      * rewrite Hsrc. simpl. specialize (IH old Hi).
        destruct (decide _); [lia | done].
      * rewrite Hsrc. simpl.
        assert (Hi1 : _tracked_matches
                  (set_tracked (<[i:=new]> (_tracked_matches w)) (tick w)) !! i
                = Some new).
        { simpl. apply list_lookup_insert_eq. by apply lookup_lt_Some in Hi. }
        specialize (IH new Hi1). destruct (decide _); [lia|]. eauto.
    + specialize (IH old (Hother Hne)).
      destruct (decide (S i <= j < S i + n)), (decide (i <= j < i + S n));
        try done; lia.
Qed.

Lemma wf_tracked_inv (m : json) :
  wf_tracked m = true ->
  exists id tournament teams utc loc human status label best_of now,
    m = JDict [("id", id); ("tournament", tournament); ("teams", JList teams);
               ("begin_at_utc", utc); ("begin_at_local", loc);
               ("begin_at_local_human", human); ("status", status);
               ("status_label", label); ("best_of", best_of);
               ("last_update", JStr now)]
    /\ null_or_str tournament = true /\ forallb wf_team teams = true
    /\ null_or_str human = true /\ scalar status = true.
Proof.
  destruct m as [| | | | |d]; try done. unfold wf_tracked.
  rewrite !andb_true_iff. intros ((((((Hk & Ht) & Hts) & _) & Hh) & Hs) & Hl).
  apply bool_decide_eq_true in Hk.
  do 11 (destruct d as [|[? ?] d]; try discriminate).
  cbn in Hk. injection Hk as -> -> -> -> -> -> -> -> -> ->.
  unfold field in *. dict_lookup_in Ht. dict_lookup_in Hts.
  dict_lookup_in Hh. dict_lookup_in Hs. dict_lookup_in Hl. simpl in *.
  destruct j1 as [| | | |ts|]; try done.
  destruct j8 as [| | |now| |]; try done.
  by exists j, j0, ts, j2, j3, j4, j5, j6, j7, now.
Qed.

Lemma wf_team_inv (t : json) :
  wf_team t = true ->
  exists id name logo score,
    t = JDict [("id", id); ("name", name); ("logo", logo); ("score", score)].
Proof.
  destruct t as [| | | | |d]; try done. unfold wf_team.
  intros Hk. apply bool_decide_eq_true in Hk.
  do 5 (destruct d as [|[? ?] d]; try discriminate).
  cbn in Hk. injection Hk as -> -> -> ->. eauto.
Qed.

Lemma scores_of_wf (m : json) :
  wf_tracked m = true -> is_ok (scores_of m) = true.
Proof.
  intros Hm. apply wf_tracked_inv in Hm
    as (id & t & ts & ? & ? & ? & ? & ? & ? & ? & -> & _ & Hts & _).
  unfold scores_of, py_get_default. dict_lookup. cbn.
  induction ts as [|team ts IH]; [done|].
  cbn in Hts |- *. apply andb_true_iff in Hts as [Hteam Hts].
  apply wf_team_inv in Hteam as (? & ? & ? & ? & ->). cbn.
  specialize (IH Hts). by destruct (result_map _ ts).
Qed.

(** The loop ends normally when the slots still to visit are trackable and
    every source is a record the normalizer accepts. *)
Lemma update_loop_total (n : nat) :
  (forall k v, dict_get k rmap = Some v -> normalizable v = true) ->
  (forall i id r, by_id i id = Some r -> truthy r = true ->
                  normalizable r = true) ->
  forall i w,
    (forall j m, i <= j -> _tracked_matches w !! j = Some m ->
                 trackable m = true) ->
    exists w', update_loop rmap by_id n i w = (w', Ok tt).
Proof.
  intros Hmap Hby. induction n as [|n IH]; intros i w Hw; [by eexists|].
  rewrite update_loop_S.
  destruct (_tracked_matches w !! i) as [m|] eqn:Hi; [|by eexists].
  pose proof (update_slot_run rmap by_id i m w Hi) as Hrun.
  assert (Hm : trackable m = true) by (by eapply Hw).
  apply andb_true_iff in Hm as [Hwf Hkey].
  assert (Hsrc : forall fresh, slot_source rmap by_id i m = Some fresh ->
                               normalizable fresh = true).
  { unfold slot_source. intros fresh.
    destruct (id_key m) as [k|]; [|done].
    destruct (dict_get k rmap) as [v|] eqn:Eg.
    { intros [= ->]. by eapply Hmap. }
    destruct (is_running _); [|done].
    destruct (by_id i _) as [r|] eqn:Er; [|done].
    destruct (truthy r) eqn:Et; [|done]. intros [= ->]. by eapply Hby. }
  destruct (update_slot rmap by_id i m w) as [w1 res]. simpl in Hrun.
  assert (Hnext : forall j m', S i <= j -> _tracked_matches w1 !! j = Some m' ->
                               trackable m' = true).
  { intros j m' Hle Hj. eapply (Hw j); [lia|].
    inversion Hrun; subst; try done.
    simpl in Hj. rewrite list_lookup_insert_ne in Hj; [done | lia]. }
  inversion Hrun as [e Hno| | fresh e Hok Hs Hn |fresh new Hok Hs Hn]; subst.
  - congruence.
  - by apply IH.
  - apply Hsrc in Hs.
    destruct (normalizable_ok (clock (ticks w1)) fresh Hs) as [? Hn'].
    rewrite Hn' in Hn. discriminate.
  - assert (Hlog : log_update m new = Ok tt).
    { unfold log_update. pose proof (scores_of_wf m Hwf) as H1.
      pose proof (scores_of_wf new (normalize_at_wf _ _ _ Hn)) as H2.
      destruct (scores_of m); [|done]. destruct (scores_of new); [|done].
      cbn. apply normalize_at_wf in Hn. destruct new; try done. }
    rewrite Hlog. by apply IH.
Qed.

End Loop.

(** ** Update cycles *)

Section UpdateScores.
Context `{Platform}.

(** What the cycle writes to the cache file: the list as the loop left it
    and the global timestamp. *)
Lemma update_scores_eq running by_id (w : world) :
  _tracked_matches w <> [] ->
  update_scores running by_id w =
    match (if bool_decide (running = [])
           then any_running (_tracked_matches w) else Ok false) with
    | Raise e => (w, Raise e)
    | Ok _ =>
        match index_by_id [] running with
        | Raise e => (w, Raise e)
        | Ok rmap =>
            match update_loop rmap by_id (length (_tracked_matches w)) 0 w with
            | (w1, Raise e) => (w1, Raise e)
            | (w1, Ok _) =>
                (set_cache_file
                   (Some (JDict [("matches", JList (_tracked_matches w1));
                                 ("last_refresh", _last_refresh w1)]))
                   (tick w1), Ok tt)
            end
        end
    end.
Proof.
  intros Hne. unfold update_scores. rewrite bool_decide_eq_false_2 by done.
  unfold bind, lift.
  destruct (if bool_decide (running = []) then _ else _); [|done].
  destruct (index_by_id [] running) as [rmap|]; [|done].
  by destruct (update_loop rmap by_id _ 0 w) as [w1 [[]|]].
Qed.

Lemma update_scores_frame running by_id (w : world) :
  let w' := (update_scores running by_id w).1 in
  _last_refresh w' = _last_refresh w
  /\ length (_tracked_matches w') = length (_tracked_matches w).
Proof.
  destruct (decide (_tracked_matches w = [])) as [He|Hne].
  { unfold update_scores. by rewrite bool_decide_eq_true_2. }
  rewrite update_scores_eq by done.
  destruct (if bool_decide (running = []) then _ else _); [|done].
  destruct (index_by_id [] running) as [rmap|]; [|done].
  pose proof (update_loop_frame rmap by_id
                (length (_tracked_matches w)) 0 w) as (Hl & _ & Hn).
  by destruct (update_loop rmap by_id _ 0 w) as [w1 [[]|]].
Qed.

Lemma update_scores_ids running by_id (w : world) :
  by_id_faithful by_id ->
  id_key <$> _tracked_matches (update_scores running by_id w).1
  = id_key <$> _tracked_matches w.
Proof.
  intros Hfaith.
  destruct (decide (_tracked_matches w = [])) as [He|Hne].
  { unfold update_scores. by rewrite bool_decide_eq_true_2. }
  rewrite update_scores_eq by done.
  destruct (if bool_decide (running = []) then _ else _); [|done].
  destruct (index_by_id [] running) as [rmap|] eqn:Er; [|done].
  assert (Hsound : forall k v, dict_get k rmap = Some v -> id_key v = Ok k).
  { intros k v Hv.
    by destruct (index_by_id_sound _ _ _ Er k v Hv) as [[_ ?]|?]. }
  pose proof (update_loop_ids rmap by_id
                (length (_tracked_matches w)) 0 w Hsound Hfaith) as Hids.
  by destruct (update_loop rmap by_id _ 0 w) as [w1 [[]|]].
Qed.

Lemma update_scores_wf running by_id (w : world) :
  Forall (fun m => wf_tracked m = true) (_tracked_matches w) ->
  Forall (fun m => wf_tracked m = true)
         (_tracked_matches (update_scores running by_id w).1).
Proof.
  destruct (decide (_tracked_matches w = [])) as [He|Hne].
  { unfold update_scores. by rewrite bool_decide_eq_true_2. }
  rewrite update_scores_eq by done.
  destruct (if bool_decide (running = []) then _ else _); [|done].
  destruct (index_by_id [] running) as [rmap|]; [|done].
  pose proof (update_loop_inv rmap by_id (fun a b =>
    Forall (fun m => wf_tracked m = true) (_tracked_matches a) ->
    Forall (fun m => wf_tracked m = true) (_tracked_matches b))) as Hinv.
  intros Hw.
  assert (Hloop : Forall (fun m => wf_tracked m = true)
            (_tracked_matches
               (update_loop rmap by_id (length (_tracked_matches w)) 0 w).1)).
  { apply Hinv; [done | by eauto | | done].
    intros j m w0 Hj Hw0.
    destruct (update_slot_run rmap by_id j m w0 Hj)
      as [| | |fresh new _ _ Hnew]; try done.
    simpl. apply Forall_insert; [done|]. by eapply normalize_at_wf. }
  by destruct (update_loop rmap by_id _ 0 w) as [w1 [[]|]].
Qed.

Lemma any_running_total (ms : list json) :
  Forall (fun m => trackable m = true) ms -> is_ok (any_running ms) = true.
Proof.
  induction 1 as [|m ms Hm _ IH]; [done|]. simpl.
  apply andb_true_iff in Hm as [Hm _].
  destruct m; try done. rewrite py_get_dict. cbn [result_bind].
  by destruct (is_running _).
Qed.

(** A cycle on trackable slots with well-formed answers ends normally; its
    slots are the outcomes of their sources. *)
Lemma update_scores_run running by_id (w : world) :
  _tracked_matches w <> [] ->
  Forall (fun m => trackable m = true) (_tracked_matches w) ->
  provider_ok running by_id ->
  exists w' running_by_id,
    update_scores running by_id w = (w', Ok tt)
    /\ index_by_id [] running = Ok running_by_id
    /\ forall i old, _tracked_matches w !! i = Some old ->
         slot_outcome (slot_source running_by_id by_id i old) old
                      (_tracked_matches w' !! i).
Proof.
  intros Hne Hw [Hfeed Hby]. rewrite update_scores_eq by done.
  pose proof (any_running_total _ Hw) as Hany.
  destruct (index_by_id_total running) with (acc := @nil (key * json))
    as [rmap Er].
  { eapply Forall_impl; [apply Hfeed|]. by intros r [_ ?]. }
  assert (Hmap : forall k v, dict_get k rmap = Some v -> normalizable v = true).
  { intros k v Hv.
    destruct (index_by_id_sound _ _ _ Er k v Hv) as [[Hin _]|?]; [|done].
    by eapply Forall_forall in Hfeed as [? _]. }
  destruct (update_loop_total rmap by_id (length (_tracked_matches w))
              Hmap Hby 0 w) as [w1 E1].
  { intros j m _ Hj. eapply Forall_forall in Hw; [done|].
    by eapply list_elem_of_lookup_2. }
  assert (Hpre :
    (if bool_decide (running = []) then any_running (_tracked_matches w)
     else Ok false) = Ok false
    \/ (if bool_decide (running = []) then any_running (_tracked_matches w)
        else Ok false) = Ok true).
  { destruct (bool_decide _); [|by left].
    destruct (any_running _) as [[]|]; [by right | by left | done]. }
  exists (set_cache_file
            (Some (JDict [("matches", JList (_tracked_matches w1));
                          ("last_refresh", _last_refresh w1)])) (tick w1)), rmap.
  split; [|split; [done|]].
  - destruct Hpre as [-> | ->]; by rewrite Er, E1.
  - intros i old Hi.
    pose proof (update_loop_slots rmap by_id _ _ _ _ E1 i old Hi) as Hs.
    destruct (decide _) as [|Hout]; [done|].
    apply lookup_lt_Some in Hi. lia.
Qed.

End UpdateScores.

(** ** The claims about update cycles *)

(** C1: an update cycle leaves the [last_refresh] the engine exposes (in its
    state, through [GET /healthz] and [GET /lol/matches]) at its old value,
    whatever the provider answers, and the file it writes carries that old
    value; on the sample process the cycle ends normally, takes its
    timestamp at 12:04 and still reports and persists the one of 06:00. *)
Theorem update_scores_last_refresh_stale :
  (forall `{Platform} running by_id w,
      let w' := (update_scores running by_id w).1 in
      _last_refresh w' = _last_refresh w
      /\ field (healthz w') "last_refresh" = _last_refresh w
      /\ field (get_matches w') "last_refresh" = _last_refresh w)
  /\ let r := @update_scores sample_platform [] sample_by_id sample_world in
     r.2 = Ok tt
     /\ ticks r.1 = 5
     /\ @clock sample_platform 4 = "2024-06-01T12:04:00+02:00"
     /\ _last_refresh r.1 = JStr "2024-06-01T06:00:00+02:00"
     /\ cache_file r.1
        = Some (JDict [("matches", JList (_tracked_matches r.1));
                       ("last_refresh", JStr "2024-06-01T06:00:00+02:00")]).
Proof.
  split.
  - intros P running by_id w w'.
    destruct (update_scores_frame running by_id w) as [Hl _]. fold w' in Hl.
    split; [done|]. split.
    + unfold healthz, field. by dict_lookup.
    + unfold get_matches, field.
      destruct (bool_decide _); by dict_lookup.
  - by vm_compute.
Qed.

(** ** How a cycle treats a slot *)

Lemma is_running_spec (status : json) :
  is_running status = true <-> status = JStr "running".
Proof.
  destruct status as [| | |s| |]; simpl; try by split.
  rewrite bool_decide_eq_true. split; [by intros -> | by intros [= ->]].
Qed.

(** A feed either does not list an id, or has a last record with it. *)
Lemma feed_last (k : key) (ms : list json) :
  Forall (fun r => id_key r <> Ok k) ms
  \/ exists pre fresh post,
       ms = pre ++ fresh :: post /\ id_key fresh = Ok k
       /\ Forall (fun r => id_key r <> Ok k) post.
Proof.
  induction ms as [|m ms IH]; [by left|].
  destruct IH as [Hall | (pre & fresh & post & -> & Hk & Hpost)].
  - destruct (id_key m) as [k'|e] eqn:Ek.
    + destruct (decide (k' = k)) as [->|Hne].
      * right. by exists [], m, ms.
      * left. constructor; [|done]. rewrite Ek. congruence.
    + left. constructor; [|done]. by rewrite Ek.
  - right. by exists (m :: pre), fresh, post.
Qed.

(** The map built from the feed holds, for an id, the last record the feed
    lists with it, and nothing for an id the feed does not list. *)
Lemma index_by_id_last (ms : list json) (rmap : list (key * json)) (k : key) :
  index_by_id [] ms = Ok rmap ->
  match dict_get k rmap with
  | Some fresh =>
      exists pre post, ms = pre ++ fresh :: post /\ id_key fresh = Ok k
                       /\ Forall (fun r => id_key r <> Ok k) post
  | None => Forall (fun r => id_key r <> Ok k) ms
  end.
Proof.
  intros E.
  destruct (feed_last k ms) as [Hall | (pre & fresh & post & -> & Hk & Hpost)].
  - by rewrite (index_by_id_other k ms Hall _ _ E).
  - assert (dict_get k rmap = Some fresh) as ->; [|by exists pre, post].
    rewrite index_by_id_app in E. try_inv E. simpl in E.
    pose proof Hk as Hk'. unfold id_key in Hk'.
    destruct (py_get fresh "id") as [id|]; [|done]. cbn [result_bind] in E, Hk'.
    rewrite Hk' in E. cbn [result_bind] in E.
    rewrite (index_by_id_other k post Hpost _ _ E), dict_get_set.
    by destruct (decide (k = k)).
Qed.

Section LoopOutcome.
Context `{Platform}.
Variable rmap : list (key * json).
Variable by_id : nat -> json -> option json.

Lemma log_update_wf (m new : json) :
  wf_tracked m = true -> wf_tracked new = true -> log_update m new = Ok tt.
Proof.
  intros Hm Hn. unfold log_update.
  pose proof (scores_of_wf m Hm) as H1. pose proof (scores_of_wf new Hn) as H2.
  destruct (scores_of m); [|done]. destruct (scores_of new); [|done].
  cbn. by destruct new.
Qed.

(** When the loop ends normally, the id of every slot it visited could be
    looked up. *)
Lemma update_loop_keys (n : nat) :
  forall i w w',
    update_loop rmap by_id n i w = (w', Ok tt) ->
    forall j old, _tracked_matches w !! j = Some old -> i <= j < i + n ->
                  is_ok (id_key old) = true.
Proof.
  induction n as [|n IH]; intros i w w' E j old Hj Hr; [lia|].
  rewrite update_loop_S in E.
  destruct (_tracked_matches w !! i) as [m|] eqn:Hi.
  2:{ apply lookup_ge_None in Hi. apply lookup_lt_Some in Hj. lia. }
  pose proof (update_slot_run rmap by_id i m w Hi) as Hrun.
  destruct (update_slot rmap by_id i m w) as [w1 [[]|e]]; [|done].
  simpl in Hrun.
  destruct (decide (j = i)) as [->|Hne].
  - assert (m = old) as -> by congruence. by inversion Hrun.
  - apply (IH (S i) w1 w' E j); [|lia].
    inversion Hrun; subst; try done.
    simpl. by rewrite list_lookup_insert_ne.
Qed.

(** On TrackedMatch records the loop stops at a position [p]: the slots
    before [p] were passed and hold the outcome of their source, the slots
    from [p] on are as before, and when the loop raised, slot [p] is one
    that cannot be passed. *)
Lemma update_loop_stop (n : nat) :
  forall i w,
    (forall j m, i <= j -> _tracked_matches w !! j = Some m ->
                 wf_tracked m = true) ->
    exists p,
      i <= p <= i + n
      /\ (forall j old, _tracked_matches w !! j = Some old -> i <= j < p ->
            slot_passes rmap by_id j old
            /\ slot_outcome (slot_source rmap by_id j old) old
                 (_tracked_matches (update_loop rmap by_id n i w).1 !! j))
      /\ (forall j, j < i \/ p <= j ->
            _tracked_matches (update_loop rmap by_id n i w).1 !! j
            = _tracked_matches w !! j)
      /\ match (update_loop rmap by_id n i w).2 with
         | Ok _ => p = i + n \/ _tracked_matches w !! p = None
         | Raise _ => exists old, _tracked_matches w !! p = Some old
                                  /\ ~ slot_passes rmap by_id p old
         end.
Proof.
  induction n as [|n IH]; intros i w Hw.
  { exists i. simpl. split; [lia|]. split; [intros; lia|]. split; [done|].
    left. lia. }
  rewrite update_loop_S.
  destruct (_tracked_matches w !! i) as [m|] eqn:Hi.
  2:{ exists i. simpl. split; [lia|]. split; [intros; lia|]. split; [done|].
      by right. }
  pose proof (update_slot_run rmap by_id i m w Hi) as Hrun.
  assert (Hm : wf_tracked m = true) by (by eapply (Hw i)).
  destruct (update_slot rmap by_id i m w) as [w1 res]. simpl in Hrun.
  inversion Hrun as [e Hno | Hok Hsrc | fresh e Hok Hsrc Hn
                    | fresh new Hok Hsrc Hn]; subst.
  - exists i. simpl. split; [lia|]. split; [intros; lia|]. split; [done|].
    exists m. split; [done|]. intros [Hk _]. congruence.
  - destruct (IH (S i) w1) as (p & Hp & Hin & Hout & Hend).
    { intros j m' Hle. apply Hw. lia. }
    exists p. split; [lia|]. split; [|split].
    + intros j old Hj Hr. destruct (decide (j = i)) as [->|Hne].
      * assert (old = m) as -> by congruence. split.
        -- split; [done|]. intros fresh. by rewrite Hsrc.
        -- rewrite Hsrc. simpl. rewrite Hout by lia. done.
      * apply Hin; [done | lia].
    + intros j Hj. apply Hout. lia.
    + destruct ((update_loop rmap by_id n (S i) w1).2); [|done].
      destruct Hend as [-> | Hnone]; [left; lia | by right].
  - exists i. simpl. split; [lia|]. split; [intros; lia|]. split; [done|].
    exists m. split; [done|]. intros [_ Hs]. specialize (Hs fresh Hsrc).
    destruct (normalizable_ok (clock (ticks w1)) fresh Hs). congruence.
  - rewrite (log_update_wf m new Hm (normalize_at_wf _ _ _ Hn)).
    set (w1 := set_tracked (<[i:=new]> (_tracked_matches w)) (tick w)).
    assert (Hsame : forall j, j <> i ->
              _tracked_matches w1 !! j = _tracked_matches w !! j).
    { intros j Hne. simpl. by apply list_lookup_insert_ne. }
    destruct (IH (S i) w1) as (p & Hp & Hin & Hout & Hend).
    { intros j m' Hle Hj. apply (Hw j); [lia|]. rewrite <- Hsame; [done|lia]. }
    exists p. split; [lia|]. split; [|split].
    + intros j old Hj Hr. destruct (decide (j = i)) as [->|Hne].
      * assert (old = m) as -> by congruence. split.
        -- split; [done|]. intros fresh'. rewrite Hsrc. intros [= <-].
           by eapply normalizable_intro.
        -- rewrite Hsrc. simpl. exists (clock (ticks w)), new.
           split; [done|]. rewrite Hout by lia. simpl.
           apply list_lookup_insert_eq. by apply lookup_lt_Some in Hi.
      * rewrite <- Hsame in Hj by done. apply Hin; [done | lia].
    + intros j Hj. rewrite Hout by lia. apply Hsame. lia.
    + destruct ((update_loop rmap by_id n (S i) w1).2).
      * destruct Hend as [-> | Hnone]; [left; lia | right].
        rewrite <- Hsame; [done | lia].
      * destruct Hend as (old & Ho & Hnp). exists old.
        rewrite <- Hsame; [done | lia].
Qed.

End LoopOutcome.

Section UpdateOnRecords.
Context `{Platform}.

Lemma any_running_wf (ms : list json) :
  Forall (fun m => wf_tracked m = true) ms -> is_ok (any_running ms) = true.
Proof.
  induction 1 as [|m ms Hm _ IH]; [done|]. simpl.
  destruct m; try done. rewrite py_get_dict. cbn [result_bind].
  by destruct (is_running _).
Qed.

(** On TrackedMatch records a cycle is its loop: the list it leaves and the
    way it ends are the loop's, unless the feed cannot be indexed. *)
Lemma update_scores_loop running by_id (w : world) :
  _tracked_matches w <> [] ->
  Forall (fun m => wf_tracked m = true) (_tracked_matches w) ->
  match index_by_id [] running with
  | Raise e => update_scores running by_id w = (w, Raise e)
  | Ok rmap =>
      let r := update_loop rmap by_id (length (_tracked_matches w)) 0 w in
      _tracked_matches (update_scores running by_id w).1 = _tracked_matches r.1
      /\ is_ok (update_scores running by_id w).2 = is_ok r.2
  end.
Proof.
  intros Hne Hw. rewrite update_scores_eq by done.
  pose proof (any_running_wf _ Hw) as Hany.
  assert (Hpre : exists b,
    (if bool_decide (running = []) then any_running (_tracked_matches w)
     else Ok false) = Ok b).
  { destruct (bool_decide _); [|by eexists].
    destruct (any_running _); [by eexists | done]. }
  destruct Hpre as [b ->].
  destruct (index_by_id [] running) as [rmap|]; [|done].
  by destruct (update_loop rmap by_id _ 0 w) as [w1 [[]|]].
Qed.

End UpdateOnRecords.


Lemma sample_by_id_faithful : by_id_faithful sample_by_id.
Proof.
  intros i id r E _ _. destruct id as [| |z| | |]; try done. simpl in E.
  destruct (decide (z = 1001%Z)) as [->|]; [|done]. by injection E as <-.
Qed.

Lemma sample_provider_ok : @provider_ok sample_platform [] sample_by_id.
Proof.
  split; [constructor|]. intros i id r E _.
  destruct id as [| |z| | |]; try done. simpl in E.
  destruct (decide (z = 1001%Z)); [|done]. by injection E as <-.
Qed.

Lemma sample_world_trackable :
  Forall (fun m => trackable m = true) (_tracked_matches sample_world).
Proof. by repeat constructor. Qed.

Lemma by_id_1003_faithful : by_id_faithful by_id_1003.
Proof.
  intros i id r E _ _. destruct id as [| |z| | |]; try done. simpl in E.
  destruct (decide (z = 1003%Z)) as [->|]; [|done]. by injection E as <-.
Qed.

Lemma by_id_1003_ok :
  @provider_ok sample_platform [raw_lfl "running" final_results] by_id_1003.
Proof.
  split; [by repeat constructor|]. intros i id r E _.
  destruct id as [| |z| | |]; try done. simpl in E.
  destruct (decide (z = 1003%Z)); [|done]. by injection E as <-.
Qed.

Lemma sample_times_fixed running by_id :
  @times_fixed sample_platform running by_id.
Proof.
  split; [apply Forall_forall; intros r _ now now'; by split|].
  intros i id r _ now now'. by split.
Qed.


(** The same cycle, evaluated: slot 0 takes the feed's record at 12:03,
    slot 1 the by-id record at 12:04, slot 2 is the record it was. *)
Example update_scores_three_slots :
  let r := @update_scores sample_platform [raw_lfl "running" final_results]
             by_id_1003 sample_world_three in
  r.2 = Ok tt
  /\ Ok <$> _tracked_matches r.1
     = [@normalize_at sample_platform "2024-06-01T12:03:00+02:00"
          (raw_lfl "running" final_results);
        @normalize_at sample_platform "2024-06-01T12:04:00+02:00"
          (JDict [("id", JNum 1003); ("status", JStr "finished")]);
        Ok (sample_tracked raw_worlds)].
Proof. by vm_compute. Qed.


(** ** Order and ids *)

Lemma run_cycles_length `{Platform}
    (cycles : list (list json * (nat -> json -> option json))) :
  forall w, length (_tracked_matches (run (cycle_op <$> cycles) w))
            = length (_tracked_matches w).
Proof.
  induction cycles as [|[running by_id] cycles IH]; intros w; [done|].
  unfold run in *. simpl. rewrite IH.
  by destruct (update_scores_frame running by_id w) as [_ ->].
Qed.

(** C7, as the code has it: update cycles never insert or remove entries:
    after any sequence of update cycles, however each cycle ends, the set
    has the length it had.  When every by-id answer carries the id that was
    requested, position [i] holds a match with the id that was at position
    [i] before, so the order is kept. *)
Theorem update_scores_preserves_order `{Platform}
    (cycles : list (list json * (nat -> json -> option json))) (w : world) :
  length (_tracked_matches (run (cycle_op <$> cycles) w))
  = length (_tracked_matches w)
  /\ (Forall (fun c => by_id_faithful c.2) cycles ->
      forall i, id_key <$> _tracked_matches (run (cycle_op <$> cycles) w) !! i
                = id_key <$> _tracked_matches w !! i).
Proof.
  split; [apply run_cycles_length|]. intros Hops.
  assert (Hids : id_key <$> _tracked_matches (run (cycle_op <$> cycles) w)
                 = id_key <$> _tracked_matches w).
  { revert w. induction Hops as [|[running by_id] cycles Hc _ IH]; intros w;
      [done|].
    unfold run in *. simpl. rewrite IH. by apply update_scores_ids. }
  intros i. by rewrite <- !list_lookup_fmap, Hids.
Qed.

(** Two sample cycles: the ids 1001 and 1002 stay at positions 0 and 1. *)
Lemma update_scores_preserves_order_witness :
  let cycles := [([], sample_by_id);
                 ([raw_lfl "running" final_results], fun _ _ => None)] in
  length (_tracked_matches
            (@run sample_platform (cycle_op <$> cycles) sample_world))
  = 2
  /\ forall i,
       id_key <$> _tracked_matches
                    (@run sample_platform (cycle_op <$> cycles) sample_world)
                  !! i
       = id_key <$> [sample_tracked (raw_lfl "running" []);
                     sample_tracked raw_worlds] !! i.
Proof.
  intros cycles.
  destruct (@update_scores_preserves_order sample_platform cycles sample_world)
    as [Hlen Hids].
  split; [exact Hlen|]. apply Hids.
  repeat constructor; [exact sample_by_id_faithful | by intros ? ? ? ?].
Defined.

(** C7 fails as stated: the by-id fetch for match 1001 answers with the
    record of match 2002, the cycle ends normally, and position 0 holds id
    2002 where it held id 1001. *)
Lemma unfaithful_answer_changes_id :
  let r := @update_scores sample_platform [] unfaithful_by_id sample_world in
  r.2 = Ok tt
  /\ (fun m => field m "id") <$> _tracked_matches sample_world
     = [JNum 1001; JNum 1002]
  /\ (fun m => field m "id") <$> _tracked_matches r.1
     = [JNum 2002; JNum 1002].
Proof. by vm_compute. Qed.

(** ** A second cycle with the same answers *)

Section Idempotence.
Context `{Platform}.
Variable rmap : list (key * json).
Variable by_id : nat -> json -> option json.
Hypothesis rmap_sound :
  forall k v, dict_get k rmap = Some v -> id_key v = Ok k.
Hypothesis by_id_carries_id : by_id_faithful by_id.

Lemma normalize_at_without (now now' : string) (m new new' : json) :
  time_fixed m ->
  normalize_at now m = Ok new -> normalize_at now' m = Ok new' ->
  without_last_update new' = without_last_update new.
Proof.
  intros Hf E E'.
  destruct (normalize_at_clock now now' m new E) as (x & Ex & Hx).
  rewrite <- (Hx Hf). congruence.
Qed.

(** A slot overwritten from a source keeps its id, and keeps that source or
    has none in a cycle with the same answers. *)
Lemma slot_source_stable (i : nat) (old fresh new : json) (now : string) :
  slot_source rmap by_id i old = Some fresh ->
  normalize_at now fresh = Ok new ->
  id_key new = id_key old
  /\ (slot_source rmap by_id i new = Some fresh
      \/ slot_source rmap by_id i new = None).
Proof.
  intros Hsrc Hnew.
  apply normalize_at_id in Hnew as (Hd & Hid & Hst & Hkey).
  assert (Hko : id_key fresh = id_key old).
  { unfold slot_source in Hsrc.
    destruct (id_key old) as [k|] eqn:Ek; [|done].
    destruct (dict_get k rmap) as [v|] eqn:Eg.
    { injection Hsrc as ->. by apply rmap_sound. }
    destruct (is_running _); [|done].
    destruct (by_id i _) as [r|] eqn:Er; [|done].
    destruct (truthy r) eqn:Et; [|done]. injection Hsrc as ->.
    pose proof (by_id_carries_id _ _ _ Er Et Hd) as Hsame.
    apply id_key_ok in Ek as [_ Ek].
    destruct fresh as [| | | | |d]; try done.
    by rewrite id_key_dict, Hsame. }
  split; [congruence|].
  unfold slot_source in *. rewrite Hkey, Hko, Hid, Hst.
  destruct (id_key old) as [k|] eqn:Ek; [|done].
  destruct (dict_get k rmap) as [v|] eqn:Eg; [by left|].
  destruct (is_running (field old "status")); [|done].
  destruct (by_id i (field old "id")) as [r|] eqn:Er; [|done].
  destruct (truthy r) eqn:Et; [|done]. injection Hsrc as ->.
  rewrite (by_id_carries_id _ _ _ Er Et Hd), Er, Et.
  destruct (is_running _); [by left | by right].
Qed.

(** A slot the loop passed can be passed again. *)
Lemma slot_passes_stable (i : nat) (old mid : json) :
  slot_passes rmap by_id i old ->
  slot_outcome (slot_source rmap by_id i old) old (Some mid) ->
  slot_passes rmap by_id i mid.
Proof.
  intros [Hk Hn] Hout.
  destruct (slot_source rmap by_id i old) as [fresh|] eqn:Hsrc; simpl in Hout.
  - destruct Hout as (now & new & Hnew & Hmid). injection Hmid as ->.
    destruct (slot_source_stable i old fresh new now Hsrc Hnew)
      as [Hko [Hs|Hs]]; (split; [by rewrite Hko|]); intros f; rewrite Hs.
    + intros [= <-]. by apply Hn.
    + done.
  - injection Hout as ->. split; [done|]. intros f. by rewrite Hsrc.
Qed.

Hypothesis rmap_times :
  forall k v, dict_get k rmap = Some v -> time_fixed v.
Hypothesis by_id_times :
  forall i id r, by_id i id = Some r -> time_fixed r.

Lemma slot_source_fixed (i : nat) (m fresh : json) :
  slot_source rmap by_id i m = Some fresh -> time_fixed fresh.
Proof.
  unfold slot_source. destruct (id_key m) as [k|]; [|done].
  destruct (dict_get k rmap) as [v|] eqn:Eg.
  { intros [= <-]. by eapply rmap_times. }
  destruct (is_running _); [|done].
  destruct (by_id i _) as [r|] eqn:Er; [|done].
  destruct (truthy r); [|done]. intros [= <-]. by eapply by_id_times.
Qed.

(** The loop run again on the list it left: no slot changes beyond
    [last_update], and the second run ends normally if the first did. *)
Lemma update_loop_again (w w1 : world) :
  Forall (fun m => wf_tracked m = true) (_tracked_matches w) ->
  let n := length (_tracked_matches w) in
  _tracked_matches w1 = _tracked_matches (update_loop rmap by_id n 0 w).1 ->
  without_last_update <$> _tracked_matches (update_loop rmap by_id n 0 w1).1
  = without_last_update <$> _tracked_matches w1
  /\ (is_ok (update_loop rmap by_id n 0 w).2 = true ->
      is_ok (update_loop rmap by_id n 0 w1).2 = true).
Proof.
  intros Hw n Hw1.
  destruct (update_loop_stop rmap by_id n 0 w)
    as (p1 & Hp1 & Hin1 & Hout1 & Hend1).
  { intros j m _ Hj. by eapply Forall_lookup in Hw. }
  rewrite <- Hw1 in Hin1, Hout1.
  pose proof (update_loop_frame rmap by_id n 0 w) as (_ & _ & Hlen1).
  cbv zeta in Hlen1. rewrite <- Hw1 in Hlen1.
  assert (Hwf1 : forall j m, 0 <= j -> _tracked_matches w1 !! j = Some m ->
                             wf_tracked m = true).
  { intros j mid _ Hmid.
    destruct (_tracked_matches w !! j) as [old|] eqn:Hold.
    2:{ apply lookup_ge_None in Hold. apply lookup_lt_Some in Hmid. lia. }
    destruct (decide (j < p1)) as [Hlt|Hge].
    - destruct (Hin1 j old Hold) as [_ Ho]; [lia|]. rewrite Hmid in Ho.
      destruct (slot_source rmap by_id j old); simpl in Ho.
      + destruct Ho as (now & new & Hn & [= ->]). by eapply normalize_at_wf.
      + injection Ho as ->. by eapply Forall_lookup in Hw.
    - rewrite Hout1, Hold in Hmid by lia. injection Hmid as <-.
      by eapply Forall_lookup in Hw. }
  destruct (update_loop_stop rmap by_id n 0 w1 Hwf1)
    as (p2 & Hp2 & Hin2 & Hout2 & Hend2).
  pose proof (update_loop_frame rmap by_id n 0 w1) as (_ & _ & Hlen2).
  cbv zeta in Hlen2.
  assert (Hstop : forall j, p1 <= j < p2 -> _tracked_matches w !! j = None).
  { intros j Hj. destruct (_tracked_matches w !! j) as [old|] eqn:Hold; [|done].
    exfalso. apply lookup_lt_Some in Hold.
    destruct ((update_loop rmap by_id n 0 w).2).
    - destruct Hend1 as [-> | Hnone]; [subst n; lia|].
      apply lookup_ge_None in Hnone. lia.
    - destruct Hend1 as (old1 & Ho1 & Hno). apply Hno.
      apply (Hin2 p1 old1); [|lia]. rewrite Hout1 by lia. done. }
  split.
  - apply list_eq. intros j. rewrite !list_lookup_fmap.
    destruct (_tracked_matches w1 !! j) as [mid|] eqn:Hmid.
    2:{ apply lookup_ge_None in Hmid.
        rewrite (proj2 (lookup_ge_None _ j)); [done | lia]. }
    destruct (decide (j < p2)) as [Hlt2|Hge2].
    2:{ rewrite Hout2, Hmid by lia. done. }
    destruct (Hin2 j mid Hmid) as [_ Ho2]; [lia|].
    destruct (_tracked_matches w !! j) as [old|] eqn:Hold.
    2:{ apply lookup_ge_None in Hold. apply lookup_lt_Some in Hmid. lia. }
    destruct (decide (j < p1)) as [Hlt1|Hge1].
    2:{ rewrite Hstop in Hold by lia. done. }
    destruct (Hin1 j old Hold) as [_ Ho1]; [lia|]. rewrite Hmid in Ho1.
    destruct (slot_source rmap by_id j old) as [fresh|] eqn:Hsrc;
      simpl in Ho1.
    + destruct Ho1 as (now & new & Hn & [= ->]).
      destruct (slot_source_stable j old fresh new now Hsrc Hn)
        as [_ [Hs|Hs]]; rewrite Hs in Ho2; simpl in Ho2.
      * destruct Ho2 as (now' & fin & Hn' & ->). simpl. f_equal.
        eapply normalize_at_without; [|done..].
        by eapply slot_source_fixed.
      * by rewrite Ho2.
    + injection Ho1 as ->. rewrite Hsrc in Ho2. simpl in Ho2. by rewrite Ho2.
  - intros Hok1. destruct ((update_loop rmap by_id n 0 w1).2); [done|].
    exfalso. destruct Hend2 as (mid & Hmid & Hno). apply Hno.
    destruct (_tracked_matches w !! p2) as [old|] eqn:Hold.
    2:{ apply lookup_ge_None in Hold. apply lookup_lt_Some in Hmid. lia. }
    apply lookup_lt_Some in Hold as Hlt.
    destruct ((update_loop rmap by_id n 0 w).2); [|done].
    assert (p2 < p1).
    { destruct Hend1 as [-> | Hnone]; [subst n; lia|].
      apply lookup_ge_None in Hnone. lia. }
    destruct (Hin1 p2 old Hold) as [Hpass Ho1]; [lia|].
    rewrite Hmid in Ho1. by eapply slot_passes_stable.
Qed.

End Idempotence.




(** The condition on timestamps is needed as well: a feed record whose
    timestamp is a time of day is completed with the date of the cycle, so
    a second cycle with the same answers, two days later, stores another
    local time. *)
Example partial_timestamp_not_idempotent :
  let r1 := @update_scores daily_platform [raw_time_only] (fun _ _ => None)
              sample_world in
  let r2 := @update_scores daily_platform [raw_time_only] (fun _ _ => None)
              r1.1 in
  r1.2 = Ok tt /\ r2.2 = Ok tt
  /\ (fun m => field m "begin_at_local") <$> _tracked_matches r1.1
     = [JStr "2024-06-03T16:00:00+02:00"; JNull]
  /\ (fun m => field m "begin_at_local") <$> _tracked_matches r2.1
     = [JStr "2024-06-05T16:00:00+02:00"; JNull]
  /\ without_last_update <$> _tracked_matches r2.1
     <> without_last_update <$> _tracked_matches r1.1.
Proof.
  intros r1 r2. repeat split; by vm_compute.
Qed.

(** ** Refresh and uniqueness of ids *)

Section RefreshFacts.
Context `{Platform}.

Lemma M_map_cons {A B} (f : A -> M B) (x : A) (l : list A) (w : world) :
  M_map f (x :: l) w =
    match f x w with
    | (w1, Ok y) =>
        match M_map f l w1 with
        | (w2, Ok ys) => (w2, Ok (y :: ys))
        | (w2, Raise e) => (w2, Raise e)
        end
    | (w1, Raise e) => (w1, Raise e)
    end.
Proof. reflexivity. Qed.

Lemma _normalize_eq (m : json) (w : world) :
  _normalize m w =
    match normalize_at (clock (ticks w)) m with
    | Ok r => (tick w, Ok r)
    | Raise e => (w, Raise e)
    end.
Proof. reflexivity. Qed.

(** Normalizing a feed changes the clock only; the records it returns have
    the ids of the feed, in the feed's order. *)
Lemma M_map_normalize (raw : list json) :
  forall w,
    let r := M_map _normalize raw w in
    _tracked_matches r.1 = _tracked_matches w
    /\ forall l, r.2 = Ok l -> id_key <$> l = id_key <$> raw.
Proof.
  induction raw as [|m raw IH]; intros w; [split; [done|by intros l [= <-]]|].
  rewrite M_map_cons, _normalize_eq.
  destruct (normalize_at (clock (ticks w)) m) as [new|e] eqn:En; [|done].
  specialize (IH (tick w)). cbv zeta in IH. destruct IH as [Ht Hl].
  destruct (M_map _normalize raw (tick w)) as [w1 [l|e]]; simpl in *;
    [|done].
  split; [done|]. intros l' [= <-]. simpl. f_equal; [|by apply Hl].
  by apply normalize_at_id in En as (_ & _ & _ & ->).
Qed.

Lemma refresh_ids (raw : list json) (w : world) :
  let l := _tracked_matches (refresh_matches_list raw w).1 in
  l = _tracked_matches w \/ id_key <$> l = id_key <$> raw.
Proof.
  unfold refresh_matches_list. destruct (bool_decide (raw = [])); [by left|].
  unfold bind. pose proof (M_map_normalize raw w) as [Ht Hl]. simpl in *.
  destruct (M_map _normalize raw w) as [w1 [l|e]]; simpl in *; [|by left].
  right. by apply Hl.
Qed.

End RefreshFacts.

(** C8, as the code has it: the engine does not remove duplicates, it keeps
    the ids it is given.  When every refresh receives a feed of pairwise
    distinct ids and every by-id answer is faithful, every set reachable
    from a set of pairwise distinct ids has pairwise distinct ids. *)
Theorem distinct_ids_invariant `{Platform} (ops : list op) (w : world) :
  distinct_ids (_tracked_matches w) ->
  Forall op_ok ops ->
  distinct_ids (_tracked_matches (run ops w)).
Proof.
  intros Hw Hops. revert w Hw.
  induction Hops as [|o ops Ho _ IH]; intros w Hw; [done|].
  unfold run in *. simpl. apply IH.
  destruct o as [raw|running by_id]; simpl in *.
  - destruct (refresh_ids raw w) as [-> | Hids]; [done|].
    unfold distinct_ids in *. by rewrite Hids.
  - unfold distinct_ids in *. by rewrite update_scores_ids.
Qed.

Lemma distinct_ids_invariant_witness :
  distinct_ids
    (_tracked_matches
       (@run sample_platform
          [Refresh [raw_lfl "running" []; raw_worlds];
           UpdateScores [] sample_by_id]
          initial_world)).
Proof.
  apply (@distinct_ids_invariant sample_platform).
  - exists []. split; [reflexivity | constructor].
  - repeat constructor; [|exact sample_by_id_faithful].
    exists [KNum 1001; KNum 1002]. split; [reflexivity|].
    apply (bool_decide_unpack _). by vm_compute.
Defined.

(** C8 fails as stated: a refresh whose feed lists match 1002 twice leaves
    two tracked matches with id 1002. *)
Lemma duplicate_feed_duplicate_ids :
  let l := _tracked_matches
             (@run sample_platform [Refresh [raw_worlds; raw_worlds]]
                   initial_world) in
  (fun m => field m "id") <$> l = [JNum 1002; JNum 1002]
  /\ ~ distinct_ids l.
Proof.
  split; [reflexivity|].
  intros (ks & Hks & Hnd). vm_compute in Hks.
  destruct ks as [|a [|b [|c ks]]]; try discriminate.
  injection Hks as <- <-. apply NoDup_cons in Hnd as [Hin _].
  apply Hin. constructor.
Qed.

(** ** The compact endpoint *)

Section CompactFacts.
Context `{Platform}.

Lemma score_text_eq (s1 s2 : json) (a b : string) :
  (if negb (is_none s1) && negb (is_none s2) then a else b)
  = if is_none s1 || is_none s2 then b else a.
Proof. by destruct (is_none s1), (is_none s2). Qed.

Lemma py_get_default_dict (d : list (string * json)) (k : string) (x : json) :
  py_get_default (JDict d) k x = Ok (default x (dict_get k d)).
Proof. reflexivity. Qed.

Lemma field_dict (d : list (string * json)) (k : string) :
  field (JDict d) k = default JNull (dict_get k d).
Proof. reflexivity. Qed.

(** The two teams the line is built from, [{}] standing for a missing one. *)
Lemma line_teams (ts : list json) :
  forallb wf_team ts = true ->
  exists team1 team2,
    (if decide (0 < length ts) then py_index (JList ts) 0 else Ok (JDict []))
    = Ok (JDict team1)
    /\ (if decide (1 < length ts) then py_index (JList ts) 1 else Ok (JDict []))
       = Ok (JDict team2)
    /\ default JNull (dict_get "score" team1)
       = from_option (fun t => field t "score") JNull (ts !! 0)
    /\ default JNull (dict_get "score" team2)
       = from_option (fun t => field t "score") JNull (ts !! 1)
    /\ py_str (default (JStr "?") (dict_get "name" team1))
       = match ts !! 0 with
         | Some t => py_str (field t "name")
         | None => "?"
         end
    /\ py_str (default (JStr "?") (dict_get "name" team2))
       = match ts !! 1 with
         | Some t => py_str (field t "name")
         | None => "?"
         end.
Proof.
  intros Hts. destruct ts as [|t1 [|t2 ts]]; cbn in Hts.
  - exists [], []. by repeat split.
  - rewrite andb_true_r in Hts.
    apply wf_team_inv in Hts as (i1 & n1 & l1 & s1 & ->).
    eexists _, []. by repeat split.
  - apply andb_true_iff in Hts as [H1 Hts].
    apply andb_true_iff in Hts as [H2 _].
    apply wf_team_inv in H1 as (i1 & n1 & l1 & s1 & ->).
    apply wf_team_inv in H2 as (i2 & n2 & l2 & s2 & ->).
    eexists _, _. by repeat split.
Qed.

(** On a TrackedMatch the code builds the specified line and does not
    raise. *)
Lemma format_line_wf (m : json) :
  wf_tracked m = true -> format_line m = Ok (display_line m).
Proof.
  intros Hm. apply wf_tracked_inv in Hm
    as (id & t & ts & utc & loc & human & st & label & bo & now
        & -> & Ht & Hts & Hh & Hs).
  unfold scalar in Hs. destruct (hash_key st) as [k|] eqn:Ek; [|done].
  destruct (line_teams ts Hts)
    as (team1 & team2 & E1 & E2 & Es1 & Es2 & En1 & En2).
  assert (Hshort :
    (if truthy t
     then match t with
          | JStr s => Ok (split_first " - " s)
          | _ => Raise AttributeError
          end
     else Ok "")
    = Ok match t with JStr s => split_first " - " s | _ => "" end).
  { destruct t as [| | |s| |]; try done. by destruct s. }
  unfold format_line, py_get. rewrite !py_get_default_dict. dict_lookup.
  cbn [default from_option Datatypes.id result_bind py_len]. rewrite E1.
  cbn [result_bind].
  rewrite E2. cbn [result_bind]. rewrite !py_get_default_dict.
  cbn [result_bind]. rewrite Ek. cbn [result_bind]. rewrite Hshort.
  cbn [result_bind]. f_equal.
  unfold display_line, spec_line, status_icon, team_text, score_text,
    team_score, short_tournament. rewrite !field_dict. dict_lookup.
  cbn [default from_option Datatypes.id]. by rewrite Ek, score_text_eq, Es1, Es2, En1, En2.
Qed.

End CompactFacts.

(** C9: for a tracked set of exactly two TrackedMatch records the compact
    endpoint answers with [match3], [match4] and [match5] empty, and with
    [match1] and [match2] holding exactly the display line of the first and
    of the second match; in a line, a team missing from the second position
    is rendered ['?']. *)
Theorem compact_two_matches `{Platform} (m1 m2 : json) (w : world) :
  _tracked_matches w = [m1; m2] ->
  wf_tracked m1 = true -> wf_tracked m2 = true ->
  get_matches_compact w
  = Ok (JDict [("match1", JStr (display_line m1));
               ("match2", JStr (display_line m2));
               ("match3", JStr ""); ("match4", JStr ""); ("match5", JStr "");
               ("last_update", _last_refresh w)])
  /\ forall m teams, field m "teams" = JList teams -> length teams < 2 ->
                     team_text m 1 = "?".
Proof.
  intros Hw H1 H2. split.
  - unfold get_matches_compact. rewrite Hw. cbn.
    by rewrite (format_line_wf m1 H1), (format_line_wf m2 H2).
  - intros m teams Hm Hlen. unfold team_text. rewrite Hm.
    by rewrite (proj2 (lookup_ge_None teams 1)) by lia.
Qed.

(** C10: the compact endpoint answers from positions 0 to 4 of the tracked
    set and from [last_refresh] alone: two states that agree on these give
    the same response, whatever follows position 4. *)
Theorem compact_first_five_only `{Platform} (w w' : world) :
  take 5 (_tracked_matches w) = take 5 (_tracked_matches w') ->
  _last_refresh w = _last_refresh w' ->
  get_matches_compact w = get_matches_compact w'.
Proof.
  intros Htake Hlr. unfold get_matches_compact. rewrite Htake, Hlr.
  destruct (_tracked_matches w) as [|a l], (_tracked_matches w') as [|a' l'];
    try done.
Qed.

(** C10 on two sets of six matches that differ in the sixth only. *)
Lemma compact_first_five_only_witness :
  let five := replicate 5 (sample_tracked raw_worlds) in
  @get_matches_compact sample_platform
    (World (five ++ [sample_tracked (raw_lfl "running" [])]) JNull None 0)
  = @get_matches_compact sample_platform
      (World (five ++ [sample_tracked (raw_lfl "finished" final_results)])
             JNull None 9).
Proof.
  apply (@compact_first_five_only sample_platform); reflexivity.
Defined.

(** C9 on a running match with both teams and scores and a match with one
    team and no parsable time. *)
Lemma compact_two_matches_witness :
  let m1 := sample_tracked (raw_lfl "running"
              [JDict [("team_id", JNum 1); ("score", JNum 1)];
               JDict [("team_id", JNum 2); ("score", JNum 0)]]) in
  let m2 := sample_tracked raw_worlds in
  let w := World [m1; m2] (JStr "2024-06-01T06:00:00+02:00") None 3 in
  @get_matches_compact sample_platform w
  = Ok (JDict [("match1", JStr "🔴 KC [1-0] VIT • 01/06 18:00 • LFL");
               ("match2", JStr "⏰ T1 vs ? • None • Worlds");
               ("match3", JStr ""); ("match4", JStr ""); ("match5", JStr "");
               ("last_update", JStr "2024-06-01T06:00:00+02:00")])
  /\ forall m teams, field m "teams" = JList teams -> length teams < 2 ->
                     @team_text sample_platform m 1 = "?".
Proof.
  intros m1 m2 w.
  exact (@compact_two_matches sample_platform m1 m2 w eq_refl eq_refl eq_refl).
Defined.

(** ** The tournament string *)

Lemma guarded_name {A} (obj : json) (k : string) (g : json -> A) (dflt : A) :
  g JNull = dflt ->
  (if truthy obj && is_dict obj
   then try! n := py_get obj k in Ok (g n) else Ok dflt)
  = Ok (g (field obj k)).
Proof.
  intros <-. destruct obj as [| | | | |d]; try done; simpl;
    rewrite ?andb_false_r; try done.
  by destruct d.
Qed.

Lemma tournament_parts_eq (m : json) :
  is_dict m = true ->
  tournament_parts m
  = Ok (let parts :=
          name_part (field (field m "league") "name")
          ++ name_part (py_or (field (field m "serie") "full_name")
                               (field (field m "serie") "season")) in
        if bool_decide (parts = [])
        then name_part (field (field m "tournament") "name") else parts).
Proof.
  intros Hm. unfold tournament_parts. rewrite !is_dict_get by done.
  cbn [result_bind].
  assert (Hleague :
    (if truthy (field m "league") && is_dict (field m "league")
     then try! league_name := py_get (field m "league") "name" in
          Ok (if truthy league_name then [league_name] else [])
     else Ok [])
    = Ok (name_part (field (field m "league") "name")))
    by (by apply (guarded_name _ _ name_part)).
  rewrite Hleague. cbn [result_bind].
  set (p1 := name_part (field (field m "league") "name")).
  assert (Hserie :
    (if truthy (field m "serie") && is_dict (field m "serie")
     then try! full_name := py_get (field m "serie") "full_name" in
          try! season := py_get (field m "serie") "season" in
          Ok (if truthy (py_or full_name season)
              then p1 ++ [py_or full_name season] else p1)
     else Ok p1)
    = Ok (p1 ++ name_part (py_or (field (field m "serie") "full_name")
                                  (field (field m "serie") "season")))).
  { unfold name_part.
    destruct (field m "serie") as [| | | | |ds]; simpl;
      rewrite ?andb_false_r, ?app_nil_r; try done.
    destruct ds; simpl; [by rewrite app_nil_r|].
    destruct (truthy (py_or _ _)); by rewrite ?app_nil_r. }
  rewrite Hserie. cbn [result_bind].
  set (p := p1 ++ _).
  destruct (bool_decide (p = [])) eqn:Ep; simpl; [|done].
  apply bool_decide_eq_true in Ep. rewrite Ep.
  by apply (guarded_name _ _ name_part).
Qed.

(** A name is empty, or a non-empty string, or a true value that is no
    string (which [join] refuses). *)
Lemma name_cases (x : json) :
  (name_part x = [] /\ text x = None)
  \/ (exists s, name_part x = [JStr s] /\ text x = Some s /\ x = JStr s)
  \/ (name_part x = [x] /\ is_str x = false).
Proof.
  unfold name_part.
  destruct x as [|b|z|s|l|d]; simpl; try by left.
  - destruct b; [by right; right | by left].
  - destruct (z =? 0)%Z; [by left | by right; right].
  - destruct s; [by left | right; left; eauto].
  - destruct l; [by left | by right; right].
  - destruct d; [by left | by right; right].
Qed.

Lemma tournament_of_spec (m t : json) :
  tournament_of m = Ok t ->
  t = spec_tournament (league_name m) (serie_name m) (tournament_name m).
Proof.
  unfold tournament_of. intros E.
  destruct (is_dict m) eqn:Hm; [|by destruct m].
  rewrite tournament_parts_eq in E by done. cbn [result_bind] in E.
  unfold league_name, serie_name, tournament_name.
  set (ln := field (field m "league") "name") in *.
  set (fn := field (field m "serie") "full_name") in *.
  set (sn := field (field m "serie") "season") in *.
  set (tn := field (field m "tournament") "name") in *.
  assert (Hs : (name_part (py_or fn sn) = []
                /\ match text fn with Some s => Some s | None => text sn end
                   = None)
               \/ (exists s, name_part (py_or fn sn) = [JStr s]
                     /\ match text fn with Some s => Some s | None => text sn end
                        = Some s)
               \/ (exists x, name_part (py_or fn sn) = [x] /\ is_str x = false)).
  { unfold py_or.
    destruct (name_cases fn) as [[Hp Ht]|[(s & Hp & Ht & ->)|[Hp Ht]]].
    - unfold name_part in Hp. destruct (truthy fn); [done|]. rewrite Ht.
      destruct (name_cases sn) as [[Hq Hu]|[(s & Hq & Hu & ->)|[Hq Hu]]];
        eauto 6.
    - right; left. exists s. by destruct s.
    - unfold name_part in Hp. destruct (truthy fn) eqn:Etf; [|done].
      right; right. exists fn. unfold name_part. by rewrite Etf. }
  clearbody ln fn sn tn.
  destruct (name_cases ln) as [[Hl Hlt]|[(l & Hl & Hlt & _)|[Hl Hlt]]];
    rewrite Hl in E; try rewrite Hlt;
    (destruct Hs as [[Hs Hst]|[(s & Hs & Hst)|(x & Hs & Hx)]];
     rewrite Hs in E; try rewrite Hst; simpl in E).
  - destruct (name_cases tn) as [[Hn Hnt]|[(n & Hn & Hnt & _)|[Hn Hnt]]];
      rewrite Hn in E; try rewrite Hnt; simpl in E.
    + by injection E as <-.
    + by injection E as <-.
    + destruct tn; try done.
  - by injection E as <-.
  - destruct x; try done.
  - by injection E as <-.
  - by injection E as <-.
  - destruct x; try done.
  - destruct ln; try done.
  - destruct ln; try done.
  - destruct ln; try done.
Qed.

(** C5: the tournament field of a normalized record is the league name and
    the serie name (full name, else season) joined by [" - "], and the raw
    tournament's own name only when both are empty; so league "LFL" with
    serie "Summer 2024" gives "LFL - Summer 2024", and a record with only a
    tournament named "Worlds" gives "Worlds". *)
Theorem normalize_tournament `{Platform} (now : string) (m out : json) :
  normalize_at now m = Ok out ->
  field out "tournament"
  = spec_tournament (league_name m) (serie_name m) (tournament_name m)
  /\ (league_name m = Some "LFL" -> serie_name m = Some "Summer 2024" ->
      field out "tournament" = JStr "LFL - Summer 2024")
  /\ (league_name m = None -> serie_name m = None ->
      tournament_name m = Some "Worlds" ->
      field out "tournament" = JStr "Worlds").
Proof.
  intros E. apply normalize_at_ok in E
    as (t & sm & opps & teams & k & _ & Et & _ & _ & _ & -> & _).
  apply tournament_of_spec in Et.
  assert (Hf : field (tracked_record m t teams k now) "tournament" = t)
    by reflexivity.
  rewrite Hf, Et. split; [done|]. split.
  - by intros -> ->.
  - by intros -> -> ->.
Qed.

(** The record of the LFL sample, and the two examples of the claim on the
    sample records. *)
Lemma normalize_tournament_witness :
  let m := raw_lfl "running" [] in
  let out := sample_tracked m in
  field out "tournament"
  = spec_tournament (league_name m) (serie_name m) (tournament_name m)
  /\ (league_name m = Some "LFL" -> serie_name m = Some "Summer 2024" ->
      field out "tournament" = JStr "LFL - Summer 2024")
  /\ (league_name m = None -> serie_name m = None ->
      tournament_name m = Some "Worlds" ->
      field out "tournament" = JStr "Worlds").
Proof.
  intros m out.
  exact (@normalize_tournament sample_platform "2024-06-01T06:00:00+02:00"
           m out eq_refl).
Defined.

Example normalize_tournament_lfl :
  field (sample_tracked (raw_lfl "not_started" [])) "tournament"
  = JStr "LFL - Summer 2024".
Proof. reflexivity. Qed.

Example normalize_tournament_worlds :
  field (sample_tracked raw_worlds) "tournament" = JStr "Worlds".
Proof. reflexivity. Qed.

(** ** Totality of the normalizer on records of the provider's shape *)

Lemma str_join_total (sep : string) (parts : list json) :
  forallb is_str parts = true -> is_ok (str_join sep parts) = true.
Proof.
  induction parts as [|x parts IH]; [done|]. simpl.
  intros Hx. apply andb_true_iff in Hx as [Hx Hp].
  destruct x as [| | |s| |]; try done. specialize (IH Hp).
  destruct parts; [done|]. by destruct (str_join sep (j :: parts)).
Qed.

Lemma name_ok_part (obj : json) (k : string) :
  name_ok obj (field obj k) = true ->
  forallb is_str (name_part (field obj k)) = true.
Proof.
  unfold name_ok, name_part, text_or_empty.
  destruct (truthy (field obj k)) eqn:Et; [|done].
  destruct obj as [| | | | |d]; try done. destruct d; [done|].
  simpl. intros Hs. by rewrite Hs.
Qed.

Lemma tournament_of_total (m : json) :
  is_dict m = true ->
  name_ok (field m "league") (field (field m "league") "name") = true ->
  name_ok (field m "serie")
    (py_or (field (field m "serie") "full_name")
           (field (field m "serie") "season")) = true ->
  name_ok (field m "tournament") (field (field m "tournament") "name") = true ->
  is_ok (tournament_of m) = true.
Proof.
  intros Hm Hl Hs Ht. unfold tournament_of.
  rewrite tournament_parts_eq by done. cbn [result_bind].
  apply name_ok_part in Hl, Ht.
  assert (Hs' : forallb is_str
                  (name_part (py_or (field (field m "serie") "full_name")
                                    (field (field m "serie") "season")))
                = true).
  { unfold name_ok, name_part, text_or_empty in *.
    destruct (truthy (py_or _ _)) eqn:Et; [|done].
    destruct (field m "serie") as [| | | | |d]; try done.
    destruct d; [done|]. simpl in Hs |- *. by rewrite Hs. }
  set (p := name_part _ ++ name_part _).
  assert (Hp : forallb is_str p = true)
    by (unfold p; rewrite forallb_app; by rewrite Hl, Hs').
  destruct (bool_decide (p = [])) eqn:Ep.
  - destruct (name_part (field (field m "tournament") "name")) eqn:En;
      [done|]. rewrite bool_decide_eq_false_2 by done.
    pose proof (str_join_total " - " _ Ht) as Hj.
    by destruct (str_join " - " (j :: l)).
  - rewrite Ep. pose proof (str_join_total " - " _ Hp) as Hj.
    by destruct (str_join " - " p).
Qed.

Lemma add_scores_total (rs : list json) :
  forallb result_ok rs = true ->
  forall acc, is_ok (add_scores acc rs) = true.
Proof.
  induction rs as [|r rs IH]; [done|]. simpl. intros Hr acc.
  apply andb_true_iff in Hr as [Hr Hrs]. unfold result_ok in Hr.
  apply andb_true_iff in Hr as [Hd Hr]. unfold add_score.
  rewrite !is_dict_get by done. cbn [result_bind].
  destruct (is_none (field r "team_id")); simpl; [by apply IH|].
  destruct (is_none (field r "score")); simpl; [by apply IH|].
  simpl in Hr. unfold scalar in Hr.
  destruct (hash_key (field r "team_id")); [|done]. by apply IH.
Qed.

Lemma scores_map_of_total (m : json) :
  is_dict m = true ->
  negb (truthy (field m "results"))
  || match field m "results" with
     | JList rs => forallb result_ok rs
     | _ => false
     end = true ->
  is_ok (scores_map_of m) = true
  /\ (truthy (field m "results") = false -> scores_map_of m = Ok []).
Proof.
  intros Hm Hr. unfold scores_map_of. rewrite is_dict_get by done.
  cbn [result_bind]. destruct (truthy (field m "results")); [|done].
  split; [|done]. simpl in Hr.
  destruct (field m "results") as [| | | |rs|]; try done.
  by apply add_scores_total.
Qed.

Lemma team_of_total (scores_map : list (key * json)) (opp : json) :
  opponent_ok opp = true ->
  exists t, team_of scores_map opp = Ok t
            /\ (scores_map = [] -> field t "score" = JNull).
Proof.
  unfold opponent_ok, team_of. intros Ho.
  apply andb_true_iff in Ho as [Hd Ho]. rewrite Hd.
  rewrite !is_dict_get by done. cbn [result_bind].
  assert (Hobj : forall obj, is_dict obj = true ->
                             scalar (field obj "id") = true ->
    exists t,
      (try! team_id := py_get obj "id" in
       try! score :=
         (if bool_decide (scores_map = []) then Ok JNull
          else try! k := hash_key team_id in
               Ok (default JNull (dict_get k scores_map))) in
       try! name := py_get obj "name" in
       try! image_url := py_get obj "image_url" in
       try! logo := py_get obj "logo" in
       Ok (JDict [("id", team_id); ("name", name);
                  ("logo", py_or image_url logo); ("score", score)])) = Ok t
      /\ (scores_map = [] -> field t "score" = JNull)).
  { intros obj Hobj Hid. rewrite !is_dict_get by done. cbn [result_bind].
    unfold scalar in Hid.
    destruct (hash_key (field obj "id")) as [k|]; [|done].
    destruct (bool_decide (scores_map = [])) eqn:Es; cbn [result_bind].
    - eexists. split; [done|]. by intros _.
    - eexists. split; [done|]. intros ->. done. }
  destruct (truthy (field opp "opponent")); cbn [result_bind].
  - apply andb_true_iff in Ho as [Hi Hs]. by apply Hobj.
  - by apply Hobj.
Qed.

Lemma teams_total (scores_map : list (key * json)) (opps : list json) :
  forallb opponent_ok opps = true ->
  exists teams, result_map (team_of scores_map) opps = Ok teams
                /\ length teams = length opps
                /\ (scores_map = [] ->
                    Forall (fun t => field t "score" = JNull) teams).
Proof.
  induction opps as [|opp opps IH]; simpl; intros Ho.
  - exists []. by repeat split.
  - apply andb_true_iff in Ho as [Hopp Ho].
    destruct (team_of_total scores_map opp Hopp) as (t & -> & Ht).
    destruct (IH Ho) as (teams & -> & Hlen & Hts). cbn [result_bind].
    exists (t :: teams). repeat split; [by simpl; rewrite Hlen|].
    intros Hs. constructor; eauto.
Qed.

(** C4, as the code has it: on every raw record of the provider's shape the
    normalizer returns a well-formed TrackedMatch and does not raise; it
    reads the clock once.  Missing league, serie and tournament give a null
    tournament, missing results give null scores, a timestamp that does not
    parse gives null local times beside the raw string, and missing or
    empty opponents give no teams. *)
Theorem normalize_total_on_well_shaped `{Platform} (m : json) (w : world) :
  well_shaped m = true ->
  exists out teams,
    _normalize m w = (tick w, Ok out)
    /\ wf_tracked out = true
    /\ field out "teams" = JList teams
    /\ field out "begin_at_utc" = field m "begin_at"
    /\ (field m "league" = JNull -> field m "serie" = JNull ->
        field m "tournament" = JNull -> field out "tournament" = JNull)
    /\ (field m "results" = JNull ->
        Forall (fun t => field t "score" = JNull) teams)
    /\ (local_iso (clock (ticks w)) (field m "begin_at") = None ->
        field out "begin_at_local" = JNull
        /\ field out "begin_at_local_human" = JNull)
    /\ (field m "opponents" = JNull \/ field m "opponents" = JList [] ->
        teams = []).
Proof.
  intros Hm. destruct m as [| | | | |d]; try done.
  unfold well_shaped in Hm. set (m := JDict d) in *.
  rewrite !andb_true_iff in Hm.
  destruct Hm as (((((Hl & Hs) & Ht) & Hr) & Ho) & Hst).
  pose proof (tournament_of_total m eq_refl Hl Hs Ht) as Htour.
  destruct (tournament_of m) as [tour|] eqn:Etour; [|done].
  destruct (scores_map_of_total m eq_refl Hr) as [Hsm Hempty].
  destruct (scores_map_of m) as [sm|] eqn:Esm; [|done].
  assert (Hopps : exists opps,
    default (JList []) (dict_get "opponents" d) = JList opps
    /\ forallb opponent_ok opps = true
    /\ (field m "opponents" = JNull \/ field m "opponents" = JList [] ->
        opps = [])).
  { unfold m, field. destruct (dict_get "opponents" d) as [o|]; simpl.
    - destruct o as [| | | |opps|]; try done. exists opps.
      repeat split; [done|]. by intros [|[=]].
    - by exists []. }
  destruct Hopps as (opps & Eopps & Hopps & Hnone).
  destruct (teams_total sm opps Hopps) as (teams & Eteams & Hlen & Hscores).
  unfold scalar in Hst.
  destruct (hash_key (field m "status")) as [k|] eqn:Ek; [|done].
  assert (En : normalize_at (clock (ticks w)) m
               = Ok (tracked_record m tour teams k (clock (ticks w)))).
  { unfold normalize_at. rewrite Etour, Esm. cbn [result_bind].
    unfold m at 1. rewrite py_get_default_dict, Eopps. fold m.
    cbn [result_bind py_iter]. rewrite Eteams. cbn [result_bind].
    rewrite !(is_dict_get m) by done. cbn [result_bind]. by rewrite Ek. }
  exists (tracked_record m tour teams k (clock (ticks w))), teams.
  split; [by rewrite _normalize_eq, En|].
  split; [by eapply normalize_at_wf|].
  split; [done|]. split; [done|]. split; [|split; [|split]].
  - intros El Es Et. apply tournament_of_spec in Etour.
    unfold league_name, serie_name, tournament_name in Etour.
    by rewrite El, Es, Et in Etour.
  - intros Hres. apply Hscores. rewrite Hres in Hempty.
    specialize (Hempty eq_refl). congruence.
  - intros Hiso. unfold tracked_record. unfold m, field in Hiso |- *.
    dict_lookup. simpl. rewrite Hiso.
    by destruct (truthy (default JNull (dict_get "begin_at" d))).
  - intros Hnone'. specialize (Hnone Hnone'). subst opps.
    by destruct teams.
Qed.

(** The Worlds sample has no league, no serie, no results and a timestamp
    that does not parse. *)
Lemma normalize_total_on_well_shaped_witness :
  let m := raw_worlds in
  exists out teams,
    @_normalize sample_platform m initial_world = (tick initial_world, Ok out)
    /\ wf_tracked out = true
    /\ field out "teams" = JList teams
    /\ field out "begin_at_utc" = field m "begin_at"
    /\ (field m "league" = JNull -> field m "serie" = JNull ->
        field m "tournament" = JNull -> field out "tournament" = JNull)
    /\ (field m "results" = JNull ->
        Forall (fun t => field t "score" = JNull) teams)
    /\ (@local_iso sample_platform
          (@clock sample_platform (ticks initial_world)) (field m "begin_at")
        = None ->
        field out "begin_at_local" = JNull
        /\ field out "begin_at_local_human" = JNull)
    /\ (field m "opponents" = JNull \/ field m "opponents" = JList [] ->
        teams = []).
Proof.
  intros m.
  exact (@normalize_total_on_well_shaped sample_platform m initial_world
           eq_refl).
Defined.

(** C4 fails as stated: a record whose [opponents] field is [null] makes
    the normalizer raise [TypeError]; so do a [results] field that is a
    number and a [status] that is a list. *)
Lemma normalize_raises_on_null_opponents :
  @_normalize sample_platform
    (JDict [("id", JNum 7); ("opponents", JNull)]) initial_world
  = (initial_world, Raise TypeError)
  /\ @_normalize sample_platform
       (JDict [("id", JNum 7); ("results", JNum 3)]) initial_world
     = (initial_world, Raise TypeError)
  /\ @_normalize sample_platform
       (JDict [("id", JNum 7); ("status", JList [])]) initial_world
     = (initial_world, Raise TypeError).
Proof. by repeat split. Qed.

(** * Further properties of the code *)

(** ** The cache file *)

Lemma load_cache_of (w0 w : world) :
  cache_file w = Some (cache_of w0) ->
  _load_cache w = (JList (_tracked_matches w0), _last_refresh w0).
Proof.
  intros Hc. unfold _load_cache. rewrite Hc. unfold cache_of, py_get.
  rewrite !py_get_default_dict. dict_lookup. reflexivity.
Qed.

Lemma load_after_save (w : world) :
  _load_cache (_save_cache w).1 = (JList (_tracked_matches w), _last_refresh w)
  /\ load_world (_save_cache w).1 = Some (_save_cache w).1.
Proof.
  assert (E : _load_cache (_save_cache w).1
              = (JList (_tracked_matches w), _last_refresh w))
    by (by apply load_cache_of).
  split; [done|]. unfold load_world. rewrite E. by destruct w.
Qed.

(** What [_save_cache] writes, [_load_cache] reads back: after a save, a
    load returns the tracked matches and the timestamp that were in memory,
    whatever the file held before. *)
Theorem save_then_load_roundtrip (w : world) :
  _load_cache (_save_cache w).1 = (JList (_tracked_matches w), _last_refresh w)
  /\ load_world (_save_cache w).1 = Some (_save_cache w).1.
Proof. exact (load_after_save w). Qed.

(** A cache file that is no JSON object, or whose ["matches"] has no length
    ([null], a boolean, a number), makes [_load_cache] reset both globals:
    the tracked set becomes empty and [last_refresh] [None], even when the
    file has a usable ["last_refresh"]. *)
Theorem load_cache_resets_on_bad_file (w : world) (data : json) :
  cache_file w = Some data ->
  is_dict data = false
  \/ (exists d matches, data = JDict d /\ dict_get "matches" d = Some matches
                        /\ is_ok (py_len matches) = false) ->
  _load_cache w = (JList [], JNull)
  /\ load_world w = Some (World [] JNull (cache_file w) (ticks w)).
Proof.
  intros Hc Hbad.
  assert (E : _load_cache w = (JList [], JNull)).
  { unfold _load_cache. rewrite Hc.
    destruct Hbad as [Hd|(d & matches & -> & Hm & Hlen)].
    - by destruct data.
    - unfold py_get. rewrite !py_get_default_dict, Hm.
      cbn [default from_option Datatypes.id result_bind].
      by destruct (py_len matches). }
  split; [done|]. unfold load_world. by rewrite E.
Qed.

Lemma load_cache_resets_on_bad_file_witness :
  let w := World [sample_tracked raw_worlds] (JStr "2024-06-01T06:00:00+02:00")
                 (Some (JDict [("matches", JNull);
                               ("last_refresh", JStr "2024-05-31T06:00:00+02:00")]))
                 0 in
  _load_cache w = (JList [], JNull)
  /\ load_world w = Some (World [] JNull (cache_file w) (ticks w)).
Proof.
  intros w.
  apply (load_cache_resets_on_bad_file w
           (JDict [("matches", JNull);
                   ("last_refresh", JStr "2024-05-31T06:00:00+02:00")]));
    [reflexivity|].
  right. eexists _, JNull. by repeat split.
Defined.

(** ** Persistence of completed operations *)

Section Persistence.
Context `{Platform}.

Lemma update_scores_saved running by_id (w w' : world) :
  update_scores running by_id w = (w', Ok tt) ->
  _tracked_matches w <> [] ->
  cache_file w' = Some (cache_of w').
Proof.
  intros E Hne. rewrite update_scores_eq in E by done.
  destruct (if bool_decide (running = []) then _ else _); [|done].
  destruct (index_by_id [] running) as [rmap|]; [|done].
  destruct (update_loop rmap by_id _ 0 w) as [w1 [[]|]]; [|done].
  by injection E as <-.
Qed.

Lemma refresh_eq (raw : list json) (w : world) :
  raw <> [] ->
  refresh_matches_list raw w =
    match M_map _normalize raw w with
    | (w1, Ok normalized) =>
        (World normalized (JStr (clock (ticks w1)))
               (Some (JDict [("matches", JList normalized);
                             ("last_refresh", JStr (clock (ticks w1)))]))
               (S (ticks w1)), Ok tt)
    | (w1, Raise e) => (w1, Raise e)
    end.
Proof.
  intros Hne. unfold refresh_matches_list.
  rewrite bool_decide_eq_false_2 by done. unfold bind.
  by destruct (M_map _normalize raw w) as [w1 [l|]].
Qed.

Lemma refresh_saved (raw : list json) (w w' : world) :
  refresh_matches_list raw w = (w', Ok tt) -> raw <> [] ->
  cache_file w' = Some (cache_of w').
Proof.
  intros E Hne. rewrite refresh_eq in E by done.
  destruct (M_map _normalize raw w) as [w1 [l|]]; [|done].
  by injection E as <-.
Qed.

End Persistence.

(** Every operation that writes the cache and ends normally leaves the
    file in step with memory: after a completed update cycle on a non-empty
    set, or a completed refresh of a non-empty feed, the file holds exactly
    the tracked set and [last_refresh] of the process, and loading it gives
    the state back. *)
Theorem completed_operation_is_persisted `{Platform} (o : op) (w w' : world) :
  match o with
  | Refresh raw => refresh_matches_list raw w = (w', Ok tt) /\ raw <> []
  | UpdateScores running by_id =>
      update_scores running by_id w = (w', Ok tt) /\ _tracked_matches w <> []
  end ->
  cache_file w' = Some (cache_of w')
  /\ _load_cache w' = (JList (_tracked_matches w'), _last_refresh w')
  /\ load_world w' = Some w'.
Proof.
  intros Ho.
  assert (Hc : cache_file w' = Some (cache_of w')).
  { destruct o as [raw|running by_id]; destruct Ho as [E Hne].
    - by eapply refresh_saved.
    - by eapply update_scores_saved. }
  assert (E : _load_cache w'
              = (JList (_tracked_matches w'), _last_refresh w'))
    by (by apply load_cache_of).
  split; [done|]. split; [done|]. unfold load_world. rewrite E.
  by destruct w'.
Qed.

Lemma completed_operation_is_persisted_witness :
  let w' := (@update_scores sample_platform [] sample_by_id sample_world).1 in
  cache_file w' = Some (cache_of w')
  /\ _load_cache w' = (JList (_tracked_matches w'), _last_refresh w')
  /\ load_world w' = Some w'.
Proof.
  intros w'.
  apply (@completed_operation_is_persisted sample_platform
           (UpdateScores [] sample_by_id) sample_world w').
  split; [reflexivity | discriminate].
Defined.

(** A restart keeps the tracked set.  A new process, whose globals the
    module has initialised to the empty list and [None], is started on the
    file that [shutdown_event] left: after [startup_event] it has the
    tracked matches and the [last_refresh] of the stopped process and has
    fetched nothing, when that set was not empty; when it was empty, the
    first refresh runs on the loaded state. *)
Theorem restart_restores_state `{Platform} (raw : list json) (w : world)
    (t : nat) :
  let file := cache_file (shutdown_event w).1 in
  let loaded := World (_tracked_matches w) (_last_refresh w) file t in
  startup_event raw (new_process file t)
  = Some (if bool_decide (_tracked_matches w = [])
          then refresh_matches_list raw loaded
          else (loaded, Ok tt)).
Proof.
  intros file loaded. unfold startup_event, load_world.
  by rewrite (load_cache_of w (new_process file t)).
Qed.

(** An update cycle that raises writes nothing: the cache file and
    [last_refresh] are as before the cycle, also when slots visited before
    the failure were already overwritten in memory. *)
Theorem failed_update_writes_nothing `{Platform} running by_id (w : world)
    (e : exn) :
  (update_scores running by_id w).2 = Raise e ->
  cache_file (update_scores running by_id w).1 = cache_file w
  /\ _last_refresh (update_scores running by_id w).1 = _last_refresh w
  /\ length (_tracked_matches (update_scores running by_id w).1)
     = length (_tracked_matches w).
Proof.
  intros Hr.
  destruct (decide (_tracked_matches w = [])) as [He|Hne].
  { unfold update_scores in *. by rewrite bool_decide_eq_true_2 in * by done. }
  rewrite update_scores_eq in * by done.
  destruct (if bool_decide (running = []) then _ else _); [|done].
  destruct (index_by_id [] running) as [rmap|]; [|done].
  pose proof (update_loop_frame rmap by_id
                (length (_tracked_matches w)) 0 w) as (Hl & Hc & Hn).
  by destruct (update_loop rmap by_id _ 0 w) as [w1 [[]|]].
Qed.

(** On the sample: the feed overwrites the first slot, the by-id answer for
    the second slot makes the normalizer raise; nothing reaches the file. *)
Lemma failed_update_writes_nothing_witness :
  let r := @update_scores sample_platform [raw_lfl "running" final_results]
             broken_by_id sample_world_1003 in
  cache_file r.1 = cache_file sample_world_1003
  /\ _last_refresh r.1 = _last_refresh sample_world_1003
  /\ length (_tracked_matches r.1)
     = length (_tracked_matches sample_world_1003).
Proof.
  intros r.
  apply (@failed_update_writes_nothing sample_platform
           [raw_lfl "running" final_results] broken_by_id sample_world_1003
           TypeError).
  reflexivity.
Defined.

(** ** Refresh *)

Section RefreshAtomic.
Context `{Platform}.

Lemma M_map_normalize_run (raw : list json) :
  forall w,
    match M_map _normalize raw w with
    | (w1, Ok l) =>
        w1 = World (_tracked_matches w) (_last_refresh w) (cache_file w)
                   (ticks w + length raw)
        /\ length l = length raw
        /\ forall i m, raw !! i = Some m ->
             exists new, l !! i = Some new
                         /\ normalize_at (clock (ticks w + i)) m = Ok new
    | (w1, Raise e) =>
        _tracked_matches w1 = _tracked_matches w
        /\ _last_refresh w1 = _last_refresh w
        /\ cache_file w1 = cache_file w
        /\ exists i m, raw !! i = Some m
                       /\ normalize_at (clock (ticks w + i)) m = Raise e
    end.
Proof.
  induction raw as [|m raw IH]; intros w.
  - simpl. split; [|done]. destruct w. simpl. f_equal. lia.
  - rewrite M_map_cons, _normalize_eq.
    destruct (normalize_at (clock (ticks w)) m) as [new|e] eqn:En.
    2:{ repeat split; try done. exists 0, m. by rewrite Nat.add_0_r. }
    specialize (IH (tick w)).
    destruct (M_map _normalize raw (tick w)) as [w1 [l|e]].
    + destruct IH as (-> & Hlen & Hl). split; [|split].
      * simpl. f_equal. lia.
      * simpl. by rewrite Hlen.
      * intros [|i] m' Hm'; simpl in Hm'.
        -- injection Hm' as <-. exists new. by rewrite Nat.add_0_r.
        -- destruct (Hl i m' Hm') as (new' & Hn & Hnew). exists new'.
           split; [done|]. simpl in Hnew.
           by replace (ticks w + S i) with (S (ticks w + i)) by lia.
    + destruct IH as (Ht & Hlr & Hc & i & m' & Hm' & Hr). repeat split; try done.
      exists (S i), m'. split; [done|]. simpl in Hr.
      by replace (ticks w + S i) with (S (ticks w + i)) by lia.
Qed.

End RefreshAtomic.

Lemma refresh_run `{Platform} (raw : list json) (w : world) :
  raw <> [] ->
  match refresh_matches_list raw w with
  | (w', Ok _) =>
      length (_tracked_matches w') = length raw
      /\ (forall i m, raw !! i = Some m ->
            exists new, _tracked_matches w' !! i = Some new
                        /\ normalize_at (clock (ticks w + i)) m = Ok new)
      /\ _last_refresh w' = JStr (clock (ticks w + length raw))
  | (w', Raise e) =>
      _tracked_matches w' = _tracked_matches w
      /\ _last_refresh w' = _last_refresh w
      /\ cache_file w' = cache_file w
      /\ exists i m, raw !! i = Some m
                     /\ normalize_at (clock (ticks w + i)) m = Raise e
  end.
Proof.
  intros Hne. rewrite refresh_eq by done.
  pose proof (M_map_normalize_run raw w) as Hrun.
  destruct (M_map _normalize raw w) as [w1 [l|e]]; [|done].
  destruct Hrun as (-> & Hlen & Hl). by repeat split.
Qed.



(** ** Well-formed slots and the compact endpoint *)

Section WellFormed.
Context `{Platform}.

Lemma refresh_wf (raw : list json) (w : world) :
  Forall (fun m => wf_tracked m = true) (_tracked_matches w) ->
  Forall (fun m => wf_tracked m = true)
         (_tracked_matches (refresh_matches_list raw w).1).
Proof.
  intros Hw. destruct (decide (raw = [])) as [->|Hne]; [done|].
  pose proof (refresh_run raw w Hne) as Hr.
  destruct (refresh_matches_list raw w) as [w' [[]|e]]; simpl.
  - destruct Hr as (Hlen & Hl & _). apply Forall_lookup. intros i new Hi.
    destruct (raw !! i) as [m|] eqn:Hm.
    + destruct (Hl i m Hm) as (new' & Hi' & Hn).
      assert (new' = new) as -> by congruence. by eapply normalize_at_wf.
    + apply lookup_ge_None in Hm. apply lookup_lt_Some in Hi. lia.
  - destruct Hr as (-> & _). done.
Qed.

Lemma format_lines_wf (l : list json) :
  Forall (fun m => wf_tracked m = true) l ->
  result_map format_line l = Ok (display_line <$> l).
Proof.
  induction 1 as [|m l Hm _ IH]; [done|].
  simpl. by rewrite (format_line_wf m Hm), IH.
Qed.

End WellFormed.

Lemma compact_lines_wf `{Platform} (w : world) :
  Forall (fun m => wf_tracked m = true) (take 5 (_tracked_matches w)) ->
  let slot k := JStr (from_option display_line "" (_tracked_matches w !! k)) in
  get_matches_compact w
  = Ok (JDict [("match1", slot 0); ("match2", slot 1); ("match3", slot 2);
               ("match4", slot 3); ("match5", slot 4);
               ("last_update", _last_refresh w)]).
Proof.
  intros Hw slot. unfold get_matches_compact.
  assert (Hline : forall k, k < 5 ->
    line_at (display_line <$> take 5 (_tracked_matches w)) k = slot k).
  { intros k Hk. unfold line_at, slot.
    rewrite list_lookup_fmap, lookup_take_lt by done.
    by destruct (_tracked_matches w !! k). }
  destruct (bool_decide (_tracked_matches w = [])) eqn:He.
  - apply bool_decide_eq_true in He. unfold slot. by rewrite He.
  - rewrite (format_lines_wf _ Hw). cbn [result_bind].
    by rewrite !Hline by lia.
Qed.

(** On any tracked set whose first five matches are well-formed
    TrackedMatch records, whatever its length, the compact endpoint answers
    without raising: slot [k] is the display line of the match at position
    [k-1] when there is one, and the empty string otherwise. *)
Theorem compact_lines `{Platform} (w : world) :
  Forall (fun m => wf_tracked m = true) (take 5 (_tracked_matches w)) ->
  let slot k := JStr (from_option display_line "" (_tracked_matches w !! k)) in
  get_matches_compact w
  = Ok (JDict [("match1", slot 0); ("match2", slot 1); ("match3", slot 2);
               ("match4", slot 3); ("match5", slot 4);
               ("last_update", _last_refresh w)]).
Proof. exact (compact_lines_wf w). Qed.

(** Seven matches: five lines, the sixth and seventh match do not appear. *)
Lemma compact_lines_witness :
  let w := World (replicate 7 (sample_tracked raw_worlds)) JNull None 0 in
  @get_matches_compact sample_platform w
  = Ok (JDict [("match1", JStr "⏰ T1 vs ? • None • Worlds");
               ("match2", JStr "⏰ T1 vs ? • None • Worlds");
               ("match3", JStr "⏰ T1 vs ? • None • Worlds");
               ("match4", JStr "⏰ T1 vs ? • None • Worlds");
               ("match5", JStr "⏰ T1 vs ? • None • Worlds");
               ("last_update", JNull)]).
Proof.
  intros w. apply (@compact_lines sample_platform w).
  by repeat constructor.
Defined.

(** Every slot is always a well-formed TrackedMatch: from a tracked set of
    well-formed records (the empty one at first), any sequence of refreshes
    and update cycles, for any provider answers and however each operation
    ends, leaves only well-formed records; so the compact endpoint never
    raises on a state the engine produced. *)
Theorem slots_stay_well_formed `{Platform} (ops : list op) (w : world) :
  Forall (fun m => wf_tracked m = true) (_tracked_matches w) ->
  Forall (fun m => wf_tracked m = true) (_tracked_matches (run ops w))
  /\ is_ok (get_matches_compact (run ops w)) = true.
Proof.
  intros Hw.
  assert (Hall : Forall (fun m => wf_tracked m = true)
                        (_tracked_matches (run ops w))).
  { revert w Hw. induction ops as [|o ops IH]; intros w Hw; [done|].
    unfold run in *. simpl. apply IH.
    destruct o as [raw|running by_id]; simpl.
    - by apply refresh_wf.
    - by apply update_scores_wf. }
  split; [done|].
  rewrite compact_lines_wf; [done|]. by apply Forall_take.
Qed.

Lemma slots_stay_well_formed_witness :
  let ops := [Refresh [raw_lfl "running" []; raw_1003];
              UpdateScores [raw_lfl "running" final_results] broken_by_id;
              Refresh [raw_worlds; JDict [("opponents", JNull)]]] in
  Forall (fun m => wf_tracked m = true)
         (_tracked_matches (@run sample_platform ops initial_world))
  /\ is_ok (@get_matches_compact sample_platform
              (@run sample_platform ops initial_world)) = true.
Proof.
  intros ops. apply (@slots_stay_well_formed sample_platform ops initial_world).
  constructor.
Defined.

(** ** The running feed and the by-id fetches *)

(** When the running feed lists an id more than once, the last record with
    that id is the one the map holds; an id the feed does not list is not
    in the map. *)
Theorem feed_last_record_wins (ms : list json) (rmap : list (key * json))
    (k : key) :
  index_by_id [] ms = Ok rmap ->
  (forall pre m post,
      ms = pre ++ m :: post -> id_key m = Ok k ->
      Forall (fun m' => id_key m' <> Ok k) post ->
      dict_get k rmap = Some m)
  /\ (Forall (fun m => id_key m <> Ok k) ms -> dict_get k rmap = None).
Proof.
  intros E. split.
  - intros pre m post -> Hm Hpost. rewrite index_by_id_app in E.
    try_inv E. simpl in E. unfold id_key in Hm.
    destruct (py_get m "id") as [id|]; [|done]. cbn [result_bind] in E, Hm.
    rewrite Hm in E. cbn [result_bind] in E.
    rewrite (index_by_id_other k post Hpost _ _ E), dict_get_set.
    by destruct (decide (k = k)).
  - intros Hall. by rewrite (index_by_id_other k ms Hall _ _ E).
Qed.

Lemma feed_last_record_wins_witness :
  let old := raw_lfl "running" [] in
  let new := raw_lfl "running" final_results in
  (forall pre m post,
      [old; raw_worlds; new] = pre ++ m :: post -> id_key m = Ok (KNum 1001) ->
      Forall (fun m' => id_key m' <> Ok (KNum 1001)) post ->
      dict_get (KNum 1001) [(KNum 1001, new); (KNum 1002, raw_worlds)]
      = Some m)
  /\ (Forall (fun m => id_key m <> Ok (KNum 1001)) [old; raw_worlds; new] ->
      dict_get (KNum 1001) [(KNum 1001, new); (KNum 1002, raw_worlds)] = None).
Proof.
  intros old new.
  exact (feed_last_record_wins [old; raw_worlds; new]
           [(KNum 1001, new); (KNum 1002, raw_worlds)] (KNum 1001) eq_refl).
Defined.

Section ByIdUse.
Context `{Platform}.
Variable rmap : list (key * json).

Lemma update_slot_agree by_id by_id' (i : nat) (m : json) (w : world) :
  (is_running (field m "status") = true ->
   (forall k, id_key m = Ok k -> dict_get k rmap = None) ->
   by_id i (field m "id") = by_id' i (field m "id")) ->
  update_slot rmap by_id i m w = update_slot rmap by_id' i m w.
Proof.
  intros Hagree. unfold update_slot, bind, lift.
  destruct m as [| | | | |d]; try done. rewrite !py_get_dict.
  pose proof (id_key_dict d) as Hid.
  destruct (hash_key (field (JDict d) "id")) as [k|]; [|done].
  destruct (dict_get k rmap) eqn:Eg; [done|].
  destruct (is_running (field (JDict d) "status")); [|done].
  rewrite Hagree; [done | done |]. intros k' Hk'. congruence.
Qed.

Lemma update_loop_agree by_id by_id' (w0 : world) (n : nat) :
  (forall i m, _tracked_matches w0 !! i = Some m ->
     is_running (field m "status") = true ->
     (forall k, id_key m = Ok k -> dict_get k rmap = None) ->
     by_id i (field m "id") = by_id' i (field m "id")) ->
  forall i w,
    (forall j, i <= j -> _tracked_matches w !! j = _tracked_matches w0 !! j) ->
    update_loop rmap by_id n i w = update_loop rmap by_id' n i w.
Proof.
  intros Hagree. induction n as [|n IH]; intros i w Hw; [done|].
  rewrite !update_loop_S.
  destruct (_tracked_matches w !! i) as [m|] eqn:Hi; [|done].
  assert (Hi0 : _tracked_matches w0 !! i = Some m) by (by rewrite <- Hw).
  rewrite <- (update_slot_agree by_id by_id' i m w (Hagree i m Hi0)).
  pose proof (update_slot_run rmap by_id i m w Hi) as Hrun.
  destruct (update_slot rmap by_id i m w) as [w1 [[]|]]; [|done].
  apply IH. intros j Hj. rewrite <- Hw by lia.
  simpl in Hrun. inversion Hrun; subst; try done.
  simpl. apply list_lookup_insert_ne. lia.
Qed.

End ByIdUse.

(** An update cycle asks for a match by id only when its slot is stored as
    running and its id is not in the running feed: two cycles whose by-id
    answers agree for those slots end in the same state with the same
    result, whatever the by-id fetch would answer for any other slot. *)
Theorem by_id_only_for_dropped_running `{Platform} running by_id by_id'
    (w : world) :
  (forall i m rmap,
      _tracked_matches w !! i = Some m ->
      index_by_id [] running = Ok rmap ->
      is_running (field m "status") = true ->
      (forall k, id_key m = Ok k -> dict_get k rmap = None) ->
      by_id i (field m "id") = by_id' i (field m "id")) ->
  update_scores running by_id w = update_scores running by_id' w.
Proof.
  intros Hagree.
  destruct (decide (_tracked_matches w = [])) as [He|Hne].
  { unfold update_scores. by rewrite bool_decide_eq_true_2. }
  rewrite !update_scores_eq by done.
  destruct (if bool_decide (running = []) then _ else _); [|done].
  destruct (index_by_id [] running) as [rmap|] eqn:Er; [|done].
  rewrite (update_loop_agree rmap by_id by_id' w); [done | | done].
  intros i m Hi. by apply Hagree.
Qed.

(** On the sample state only the first slot is stored as running: a by-id
    fetch that breaks on every other id changes nothing. *)
Lemma by_id_only_for_dropped_running_witness :
  @update_scores sample_platform [] sample_by_id sample_world
  = @update_scores sample_platform []
      (fun i id => if decide (i = 0) then sample_by_id i id
                   else broken_by_id i id)
      sample_world.
Proof.
  apply (@by_id_only_for_dropped_running sample_platform).
  intros i m rmap Hi _ Hrun _.
  destruct i as [|[|i]]; [done| |done].
  injection Hi as <-. discriminate.
Defined.

(** ** The provider client *)

Lemma list_reply_failed (reply : http) :
  reply = GetRaises
  \/ (exists status_code body, reply = Response status_code body
                               /\ status_code <> 200%Z) ->
  list_reply reply = Returns (JList []).
Proof.
  intros [->|(status_code & body & -> & Hs)]; [done|].
  unfold list_reply. by destruct (decide (status_code = 200%Z)).
Qed.

Section Untouched.
Context `{Platform}.

(** A cycle in which no slot has a source leaves every slot as it is,
    however it ends. *)
Lemma update_scores_no_source running by_id (w : world) :
  (forall rmap i m, index_by_id [] running = Ok rmap ->
                    slot_source rmap by_id i m = None) ->
  _tracked_matches (update_scores running by_id w).1 = _tracked_matches w.
Proof.
  intros Hnone.
  destruct (decide (_tracked_matches w = [])) as [He|Hne].
  { unfold update_scores. by rewrite bool_decide_eq_true_2. }
  rewrite update_scores_eq by done.
  destruct (if bool_decide (running = []) then _ else _); [|done].
  destruct (index_by_id [] running) as [rmap|] eqn:Er; [|done].
  assert (Hloop : _tracked_matches
            (update_loop rmap by_id (length (_tracked_matches w)) 0 w).1
          = _tracked_matches w).
  { apply (update_loop_inv rmap by_id (fun w1 w2 =>
             _tracked_matches w2 = _tracked_matches w1)); [done | |].
    - intros w1 w2 w3 H12 H23. congruence.
    - intros j m w0 Hj.
      destruct (update_slot_run rmap by_id j m w0 Hj)
        as [| | |fresh new _ Hsrc _]; try done.
      by rewrite (Hnone rmap j m eq_refl) in Hsrc. }
  by destruct (update_loop rmap by_id _ 0 w) as [w1 [[]|]].
Qed.

End Untouched.

(** While the provider cannot be reached (no credential, or every request
    failing or answered with a status other than 200) the three fetches
    return the empty list, the empty list and [None] without raising, a
    refresh changes nothing, and an update cycle leaves every tracked match
    as it is. *)
Theorem unreachable_provider_changes_nothing `{Platform}
    (api_key : option string) (net : request -> http) (limit : Z)
    (w : world) :
  unreachable api_key net ->
  _fetch_upcoming_matches api_key net limit = Returns (JList [])
  /\ _fetch_running_matches api_key net = Returns (JList [])
  /\ (forall match_id, _fetch_match_by_id api_key net match_id = JNull)
  /\ refresh_matches_list [] w = (w, Ok tt)
  /\ _tracked_matches (update_scores [] (by_id_over api_key net) w).1
     = _tracked_matches w.
Proof.
  intros Hun.
  assert (Hby : forall match_id,
             _fetch_match_by_id api_key net match_id = JNull).
  { intros match_id. unfold _fetch_match_by_id.
    destruct Hun as [->|[->|Hnet]]; [done | done |].
    destruct api_key as [[|c k]|]; try done.
    destruct (Hnet (Request (BASE_URL +:+ "/matches") (String c k)
                            [("filter[id]", match_id)] 5))
      as [->|(status_code & body & -> & Hs)]; [done|].
    by destruct (decide (status_code = 200%Z)). }
  repeat split; try done.
  - unfold _fetch_upcoming_matches.
    destruct Hun as [->|[->|Hnet]]; [done | done |].
    destruct api_key as [[|c k]|]; try done. by apply list_reply_failed.
  - unfold _fetch_running_matches.
    destruct Hun as [->|[->|Hnet]]; [done | done |].
    destruct api_key as [[|c k]|]; try done. by apply list_reply_failed.
  - apply update_scores_no_source. intros rmap i m [= <-].
    unfold slot_source. destruct (id_key m) as [k|]; [|done]. simpl.
    destruct (is_running _); [|done]. unfold by_id_over. by rewrite Hby.
Qed.

Lemma unreachable_provider_changes_nothing_witness :
  let net := fun _ : request => Response 503 JsonValueError in
  @_fetch_upcoming_matches (Some "secret") net 5 = Returns (JList [])
  /\ _fetch_running_matches (Some "secret") net = Returns (JList [])
  /\ (forall match_id, _fetch_match_by_id (Some "secret") net match_id = JNull)
  /\ @refresh_matches_list sample_platform [] sample_world
     = (sample_world, Ok tt)
  /\ _tracked_matches
       (@update_scores sample_platform [] (by_id_over (Some "secret") net)
          sample_world).1
     = _tracked_matches sample_world.
Proof.
  intros net.
  apply (@unreachable_provider_changes_nothing sample_platform).
  right; right. intros req. right. by exists 503%Z, JsonValueError.
Defined.

(** The by-id fetch returns a record only from a 200 answer whose body it
    can index: a non-empty list gives its first element, whatever follows
    it; an empty list, an object, [null], a number, a body that is no JSON,
    any other status and any failed request give [None]. *)
Theorem fetch_match_by_id_cases (api_key : option string)
    (net : request -> http) (match_id : json) :
  let reply k := net (Request (BASE_URL +:+ "/matches") k
                              [("filter[id]", match_id)] 5) in
  (forall k first rest,
      api_key = Some k -> k <> "" ->
      reply k = Response 200 (JsonValue (JList (first :: rest))) ->
      _fetch_match_by_id api_key net match_id = first)
  /\ (_fetch_match_by_id api_key net match_id <> JNull ->
      exists k matches,
        api_key = Some k /\ k <> ""
        /\ reply k = Response 200 (JsonValue matches)
        /\ py_first matches = Ok (_fetch_match_by_id api_key net match_id)
        /\ is_dict matches = false).
Proof.
  intros reply. unfold _fetch_match_by_id. fold (reply). split.
  - intros k first rest -> Hk Hr. destruct k as [|c k']; [done|].
    change (net _) with (reply (String c k')). by rewrite Hr.
  - destruct api_key as [[|c k]|]; try done.
    change (net _) with (reply (String c k)).
    destruct (reply (String c k)) as [|status_code body] eqn:Er; [done|].
    destruct (decide (status_code = 200%Z)) as [->|]; [|done].
    destruct body as [matches| |]; try done.
    destruct (truthy matches); [|done].
    destruct (py_len matches) as [n|]; [|done].
    destruct (decide (0 < n)); [|done].
    destruct (py_first matches) as [first|] eqn:Ef; [|done].
    intros _. exists (String c k), matches. repeat split; try done.
    by destruct matches.
Qed.

Lemma fetch_match_by_id_cases_witness :
  let net := fun _ : request =>
    Response 200 (JsonValue (JList [raw_worlds; raw_1003])) in
  _fetch_match_by_id (Some "secret") net (JNum 1002) = raw_worlds.
Proof.
  intros net.
  exact (proj1 (fetch_match_by_id_cases (Some "secret") net (JNum 1002))
           "secret" raw_worlds [raw_1003] eq_refl
           ltac:(discriminate) eq_refl).
Defined.

(** The list fetches hand back the provider's list as it is: the limit is
    only a request parameter, a longer list is not cut.  They raise only on
    a 200 answer: [TypeError] for a body without a length, [ValueError]
    for a body that is no JSON. *)
Theorem fetch_upcoming_cases (api_key : option string)
    (net : request -> http) (limit : Z) :
  let reply k := net (Request (BASE_URL +:+ "/matches/upcoming") k
                              [("per_page", JNum limit)] 10) in
  (forall k l, api_key = Some k -> k <> "" ->
               reply k = Response 200 (JsonValue (JList l)) ->
               _fetch_upcoming_matches api_key net limit = Returns (JList l))
  /\ (forall e, _fetch_upcoming_matches api_key net limit = Raises e ->
                e = TypeError
                /\ exists k body, api_key = Some k
                     /\ reply k = Response 200 (JsonValue body)
                     /\ py_len body = Raise TypeError)
  /\ (_fetch_upcoming_matches api_key net limit = RaisesValueError ->
      exists k, api_key = Some k /\ reply k = Response 200 JsonValueError).
Proof.
  intros reply. unfold _fetch_upcoming_matches. split; [|split].
  - intros k l -> Hk Hr. destruct k as [|c k']; [done|].
    change (net _) with (reply (String c k')). by rewrite Hr.
  - intros e. destruct api_key as [[|c k]|]; try done.
    change (net _) with (reply (String c k)).
    destruct (reply (String c k)) as [|status_code body] eqn:Er; [done|].
    unfold list_reply. destruct (decide (status_code = 200%Z)) as [->|]; [|done].
    destruct body as [matches| |]; try done.
    destruct (py_len matches) as [n|e'] eqn:El; [done|].
    intros [= <-].
    assert (e' = TypeError) as -> by (destruct matches; simpl in El; congruence).
    split; [done|]. by exists (String c k), matches.
  - destruct api_key as [[|c k]|]; try done.
    change (net _) with (reply (String c k)).
    destruct (reply (String c k)) as [|status_code body] eqn:Er; [done|].
    unfold list_reply. destruct (decide (status_code = 200%Z)) as [->|]; [|done].
    destruct body as [matches| |]; try done.
    + by destruct (py_len matches).
    + intros _. by exists (String c k).
Qed.

Lemma fetch_upcoming_cases_witness :
  let l := replicate 6 raw_worlds in
  let net := fun _ : request => Response 200 (JsonValue (JList l)) in
  _fetch_upcoming_matches (Some "secret") net 5 = Returns (JList l).
Proof.
  intros l net.
  exact (proj1 (fetch_upcoming_cases (Some "secret") net 5)
           "secret" l eq_refl ltac:(discriminate) eq_refl).
Defined.

(** ** Teams and scores of a normalized record *)

Lemma result_map_lookup {A B} (f : A -> result B) (l : list A) :
  forall ys, result_map f l = Ok ys ->
    length ys = length l
    /\ forall i x, l !! i = Some x -> exists y, ys !! i = Some y /\ f x = Ok y.
Proof.
  induction l as [|x l IH]; simpl; intros ys E.
  - injection E as <-. split; [done|]. by intros i x.
  - do 2 try_inv E. injection E as <-. destruct (IH _ E1) as [Hlen Hl].
    split; [by simpl; rewrite Hlen|].
    intros [|i] x' Hx; simpl in Hx; [injection Hx as <-; eauto|].
    by apply Hl.
Qed.

Lemma team_of_inv (scores_map : list (key * json)) (opp t : json) :
  team_of scores_map opp = Ok t ->
  let o := opponent_object opp in
  exists score,
    t = JDict [("id", field o "id"); ("name", field o "name");
               ("logo", py_or (field o "image_url") (field o "logo"));
               ("score", score)]
    /\ ((scores_map = [] /\ score = JNull)
        \/ (scores_map <> []
            /\ exists k, hash_key (field o "id") = Ok k
                         /\ score = default JNull (dict_get k scores_map))).
Proof.
  unfold team_of, opponent_object. intros E.
  destruct (is_dict opp) eqn:Hd.
  2:{ cbn [result_bind] in E. by destruct opp. }
  rewrite is_dict_get in E by done. cbn [result_bind andb] in E.
  set (o := if truthy (field opp "opponent") then field opp "opponent"
            else opp) in *.
  assert (Eo : (if truthy (field opp "opponent")
                then Ok (field opp "opponent") else Ok opp) = Ok o).
  { unfold o. by destruct (truthy _). }
  rewrite Eo in E. cbn [result_bind] in E.
  destruct (is_dict o) eqn:Ho; [|by destruct o].
  rewrite !(is_dict_get o) in E by done. cbn [result_bind] in E.
  destruct (bool_decide (scores_map = [])) eqn:Es; cbn [result_bind] in E.
  - injection E as <-. apply bool_decide_eq_true in Es.
    eexists. split; [done|]. by left.
  - try_inv E. injection E as <-. apply bool_decide_eq_false in Es.
    eexists. split; [done|]. right. split; [done|].
    try_inv E0. injection E0 as <-. by exists v0.
Qed.

(** The teams of a normalized record are the opponents of the raw record,
    one team per opponent and in the provider's order, however many there
    are: each team has the id and the name of the opponent's team object,
    its [image_url] or else its [logo], and the score the results give its
    id ([None] without results or without a result for the id). *)
Theorem normalize_teams `{Platform} (now : string) (m out : json) :
  normalize_at now m = Ok out ->
  exists opps teams scores_map,
    py_iter (opponents_of m) = Ok opps
    /\ scores_map_of m = Ok scores_map
    /\ field out "teams" = JList teams
    /\ length teams = length opps
    /\ forall i opp, opps !! i = Some opp ->
         let o := opponent_object opp in
         exists score,
           teams !! i
           = Some (JDict [("id", field o "id"); ("name", field o "name");
                          ("logo", py_or (field o "image_url") (field o "logo"));
                          ("score", score)])
           /\ ((scores_map = [] /\ score = JNull)
               \/ (scores_map <> []
                   /\ exists k, hash_key (field o "id") = Ok k
                        /\ score = default JNull (dict_get k scores_map))).
Proof.
  unfold normalize_at. intros E.
  destruct m as [| | | | |d];
    try (unfold tournament_of, tournament_parts in E; simpl in E; discriminate).
  try_inv E. rename v into tournament.
  try_inv E. rename v into scores_map, E1 into Es.
  try_inv E. rename v into opponents, E1 into Eo.
  try_inv E. rename v into opps, E1 into Ei.
  try_inv E. rename v into teams, E1 into Em.
  rewrite !py_get_dict in E. cbn [result_bind] in E.
  try_inv E. injection E as <-.
  injection Eo as <-.
  exists opps, teams, scores_map.
  destruct (result_map_lookup _ _ _ Em) as [Hlen Hl].
  repeat split; try done.
  intros i opp Hopp. destruct (Hl i opp Hopp) as (t & Ht & Hteam).
  destruct (team_of_inv _ _ _ Hteam) as (score & -> & Hscore).
  exists score. by split.
Qed.

Lemma normalize_teams_witness :
  let m := raw_lfl "finished" final_results in
  let out := sample_tracked m in
  exists opps teams scores_map,
    py_iter (opponents_of m) = Ok opps
    /\ scores_map_of m = Ok scores_map
    /\ field out "teams" = JList teams
    /\ length teams = length opps
    /\ forall i opp, opps !! i = Some opp ->
         let o := opponent_object opp in
         exists score,
           teams !! i
           = Some (JDict [("id", field o "id"); ("name", field o "name");
                          ("logo", py_or (field o "image_url") (field o "logo"));
                          ("score", score)])
           /\ ((scores_map = [] /\ score = JNull)
               \/ (scores_map <> []
                   /\ exists k, hash_key (field o "id") = Ok k
                        /\ score = default JNull (dict_get k scores_map))).
Proof.
  intros m out.
  exact (@normalize_teams sample_platform "2024-06-01T06:00:00+02:00" m out
           eq_refl).
Defined.

Lemma add_scores_app (rs1 rs2 : list json) :
  forall acc,
    add_scores acc (rs1 ++ rs2)
    = try! acc1 := add_scores acc rs1 in add_scores acc1 rs2.
Proof.
  induction rs1 as [|r rs1 IH]; intros acc; [done|]. simpl.
  destruct (add_score acc r) as [acc1|]; [|done]. cbn [result_bind]. apply IH.
Qed.

Lemma add_score_inv (acc acc' : list (key * json)) (r : json) :
  add_score acc r = Ok acc' ->
  (acc' = acc
   /\ (is_none (field r "team_id") = true \/ is_none (field r "score") = true))
  \/ (exists k, scores_team k r
                /\ acc' = dict_set k (field r "score") acc).
Proof.
  unfold add_score. intros E. do 2 try_inv E.
  apply py_get_field in E0 as [-> Hd]. apply py_get_field in E1 as [-> _].
  destruct (is_none (field r "team_id")) eqn:Ht; simpl in E.
  { injection E as <-. left. eauto. }
  destruct (is_none (field r "score")) eqn:Hs; simpl in E.
  { injection E as <-. left. eauto. }
  try_inv E. injection E as <-. right. exists v. by repeat split.
Qed.

Lemma add_scores_other (k : key) (rs : list json) :
  Forall (fun r => ~ scores_team k r) rs ->
  forall acc sm, add_scores acc rs = Ok sm -> dict_get k sm = dict_get k acc.
Proof.
  induction 1 as [|r rs Hr _ IH]; simpl; intros acc sm E.
  - by injection E as <-.
  - try_inv E. rewrite (IH _ _ E).
    destruct (add_score_inv _ _ _ E0) as [[-> _]|(k' & Hk' & ->)]; [done|].
    rewrite dict_get_set. destruct (decide (k = k')) as [->|]; [|done].
    contradiction.
Qed.

(** The score of a team id is the score of the last result entry for that
    id that has both a team id and a score; an id without such an entry has
    no score, and a record without results gives no scores at all. *)
Theorem scores_last_result_wins (m : json) (scores_map : list (key * json))
    (k : key) :
  scores_map_of m = Ok scores_map ->
  (truthy (field m "results") = false -> scores_map = [])
  /\ forall rs, truthy (field m "results") = true ->
       py_iter (field m "results") = Ok rs ->
       (forall pre r post,
           rs = pre ++ r :: post -> scores_team k r ->
           Forall (fun r' => ~ scores_team k r') post ->
           dict_get k scores_map = Some (field r "score"))
       /\ (Forall (fun r => ~ scores_team k r) rs ->
           dict_get k scores_map = None).
Proof.
  unfold scores_map_of. intros E. try_inv E.
  apply py_get_field in E0 as [-> _].
  destruct (truthy (field m "results")); [|by injection E as <-].
  split; [done|]. intros rs _ Hrs. rewrite Hrs in E. cbn [result_bind] in E.
  split.
  - intros pre r post -> Hr Hpost. rewrite add_scores_app in E.
    try_inv E. simpl in E. try_inv E.
    rewrite (add_scores_other k post Hpost _ _ E).
    destruct (add_score_inv _ _ _ E1) as [[_ Hnone]|(k' & Hk' & ->)].
    + destruct Hr as (_ & Ht & Hs). destruct Hnone; congruence.
    + destruct Hr as (Hk & _), Hk' as (Hk'' & _).
      assert (k' = k) as -> by congruence.
      rewrite dict_get_set. by destruct (decide (k = k)).
  - intros Hall. by rewrite (add_scores_other k rs Hall _ _ E).
Qed.

Lemma scores_last_result_wins_witness :
  let m := raw_lfl "finished"
             (JDict [("team_id", JNum 1); ("score", JNum 0)] :: final_results) in
  let sm := [(KNum 1, JNum 2); (KNum 2, JNum 1)] in
  (truthy (field m "results") = false -> sm = [])
  /\ forall rs, truthy (field m "results") = true ->
       py_iter (field m "results") = Ok rs ->
       (forall pre r post,
           rs = pre ++ r :: post -> scores_team (KNum 1) r ->
           Forall (fun r' => ~ scores_team (KNum 1) r') post ->
           dict_get (KNum 1) sm = Some (field r "score"))
       /\ (Forall (fun r => ~ scores_team (KNum 1) r) rs ->
           dict_get (KNum 1) sm = None).
Proof.
  intros m sm. exact (scores_last_result_wins m sm (KNum 1) eq_refl).
Defined.

(** ** The short tournament name of the compact line *)

Lemma string_app_assoc (a b c : string) : (a +:+ b) +:+ c = a +:+ b +:+ c.
Proof.
  induction a as [|x a IH]; [done|].
  change (String x ((a +:+ b) +:+ c) = String x (a +:+ b +:+ c)).
  by f_equal.
Qed.

Lemma prefix_cons (a b : ascii) (p s : string) :
  String.prefix (String a p) (String b s)
  = if ascii_dec a b then String.prefix p s else false.
Proof. reflexivity. Qed.

Lemma prefix_nil (s : string) : String.prefix "" s = true.
Proof. by destruct s. Qed.

Lemma app_cons (c : ascii) (a b : string) :
  String c a +:+ b = String c (a +:+ b).
Proof. reflexivity. Qed.

Lemma occurs_cons (sep : string) (c : ascii) (s : string) :
  occurs sep (String c s) = String.prefix sep (String c s) || occurs sep s.
Proof. reflexivity. Qed.

Lemma split_first_cons (sep : string) (c : ascii) (s : string) :
  split_first sep (String c s)
  = if String.prefix sep (String c s) then ""
    else String c (split_first sep s).
Proof. reflexivity. Qed.

Lemma prefix_app_long (p x y : string) :
  String.length p <= String.length x ->
  String.prefix p (x +:+ y) = String.prefix p x.
Proof.
  revert x. induction p as [|a p IH]; intros x Hlen.
  - by rewrite !prefix_nil.
  - destruct x as [|b x]; [simpl in Hlen; lia|].
    rewrite app_cons, !prefix_cons.
    destruct (ascii_dec a b); [|done]. apply IH. simpl in Hlen. lia.
Qed.

Lemma prefix_app_true (p x y : string) :
  String.prefix p x = true -> String.prefix p (x +:+ y) = true.
Proof.
  revert p. induction x as [|b x IH]; intros p Hp.
  - destruct p; [apply prefix_nil | done].
  - destruct p as [|a p]; [apply prefix_nil|].
    rewrite app_cons, prefix_cons. rewrite prefix_cons in Hp.
    destruct (ascii_dec a b); [|done]. by apply IH.
Qed.

Lemma split_first_absent (sep s : string) :
  occurs sep s = false -> split_first sep s = s.
Proof.
  induction s as [|c s IH]; intros Ho.
  - by destruct sep.
  - rewrite occurs_cons in Ho. apply orb_false_iff in Ho as [Hp Ho].
    by rewrite split_first_cons, Hp, IH.
Qed.

Lemma occurs_app_l (sep a b : string) :
  occurs sep (a +:+ b) = false -> sep <> "" -> occurs sep a = false.
Proof.
  intros Ho Hsep. induction a as [|c a IH].
  - by destruct sep.
  - rewrite app_cons, occurs_cons in Ho. rewrite occurs_cons.
    apply orb_false_iff in Ho as [Hp Ho]. rewrite (IH Ho), orb_false_r.
    destruct (String.prefix sep (String c a)) eqn:Hpa; [|done].
    pose proof (prefix_app_true sep (String c a) b Hpa) as Hex.
    rewrite app_cons in Hex. congruence.
Qed.

Lemma split_first_before_dash (a b : string) :
  occurs " - " (a +:+ " -") = false ->
  split_first " - " (a +:+ " - " +:+ b) = a.
Proof.
  induction a as [|c a IH]; intros Ho.
  { change ("" +:+ " - " +:+ b) with (String " " (String "-" (String " " b))).
    rewrite split_first_cons.
    assert (Hpre : String.prefix " - " (String " " (String "-" (String " " b)))
                   = true).
    { rewrite !prefix_cons. repeat (destruct (ascii_dec _ _); [|done]).
      apply prefix_nil. }
    by rewrite Hpre. }
  rewrite app_cons, occurs_cons in Ho.
  apply orb_false_iff in Ho as [Hp Ho].
  assert (Hlong : String.prefix " - " (String c (a +:+ " - " +:+ b))
                  = String.prefix " - " (String c (a +:+ " -"))).
  { change (" - " +:+ b) with (" -" +:+ (" " +:+ b)).
    rewrite <- string_app_assoc, <- !app_cons.
    apply prefix_app_long.
    destruct a as [|d a]; [simpl; lia|]. destruct a; simpl; lia. }
  rewrite app_cons, split_first_cons, Hlong, Hp. by rewrite IH.
Qed.

(** The compact line ends with the league: for a raw record with a league
    name in which [" - "] does not occur (also not across its end, as in a
    name ending in [" -"]), the short tournament of the normalized record is
    the league name, with or without a serie; and the line is built without
    raising. *)
Theorem short_tournament_is_league `{Platform} (now : string) (m out : json)
    (league : string) :
  normalize_at now m = Ok out ->
  league_name m = Some league ->
  occurs " - " (league +:+ " -") = false ->
  short_tournament out = league
  /\ format_line out = Ok (display_line out).
Proof.
  intros E Hl Ho. split; [|eapply format_line_wf, normalize_at_wf, E].
  apply normalize_at_ok in E
    as (t & sm & opps & teams & k & _ & Et & _ & _ & _ & -> & _).
  apply tournament_of_spec in Et. rewrite Hl in Et.
  unfold short_tournament.
  change (field (tracked_record m t teams k now) "tournament") with t.
  rewrite Et. destruct (serie_name m) as [s|]; simpl.
  - by apply split_first_before_dash.
  - apply split_first_absent. by eapply occurs_app_l.
Qed.

Lemma short_tournament_is_league_witness :
  let out := sample_tracked (raw_lfl "running" []) in
  @short_tournament out = "LFL"
  /\ @format_line sample_platform out = Ok (@display_line sample_platform out).
Proof.
  intros out.
  exact (@short_tournament_is_league sample_platform
           "2024-06-01T06:00:00+02:00" (raw_lfl "running" []) out "LFL"
           eq_refl eq_refl eq_refl).
Defined.
